(** * XcodeRemote: build-log polling and build-log parsing

    A shallow embedding of [xcode_remote.py].  The script drives an IDE
    through [osascript], polls the DerivedData directory until the newest
    [*.xcactivitylog] stops changing, and scrapes the decompressed log
    for errors, warnings and notes.

    Conventions of the embedding:

    - Text.  A Python [str] is a [string] whose characters are the code
      points 0..255.  On that range the character classes below
      ([lower], [is_space], [is_digit], case-insensitive comparison)
      are the ones of Python 3; code points above 255 are not part of
      the model.
    - Regular expressions.  The patterns of the script are values of
      [regex] and are run by a backtracking matcher with the priorities
      of Python's [re] (leftmost match, greedy and lazy repetition,
      ordered alternation, numbered groups).
    - Sets.  The three [set()] accumulators are [gset string]; the
      returned lists are [elements] of them, whose order is as little
      specified as the iteration order of a Python set.
    - Time.  Clock readings and modification times are integers in
      nanoseconds; floating-point rounding is not modelled.
    - The outside world (clock, file system, [osascript]) is a [World]:
      the answers the script receives, indexed by the evaluation of the
      loop tests.  Loops run on fuel.
    - Files.  A view of the file system is a tree of directories and
      files.  Permissions are not part of it: whatever is in the tree
      can be listed, searched and read, so that [stat] only fails with
      [FileNotFoundError] or [NotADirectoryError]. *)

From Stdlib Require Import ZArith Ascii String List Lia Bool.
From stdpp Require Import base gmap strings list sets.

Set Warnings "-clear-no-such-hyp".

(** ** Python text primitives *)

Module Py.

Definition code (c : ascii) : nat := nat_of_ascii c.

Definition newline : ascii := "010"%char.
Definition dquote : ascii := "034"%char.

(** [c.isspace()], which is also the class [\s] of a [str] pattern. *)
Definition is_space (c : ascii) : bool :=
  let n := code c in
  ((9 <=? n) && (n <=? 13)) || ((28 <=? n) && (n <=? 32))
  || (n =? 133) || (n =? 160).

(** The class [\d]: below 256 the decimal digits are 0-9. *)
Definition is_digit (c : ascii) : bool :=
  let n := code c in (48 <=? n) && (n <=? 57).

(** [c.lower()] on one character: A-Z, and the capital letters of the
    Latin-1 block (0xC0-0xDE without the multiplication sign 0xD7). *)
Definition lower_char (c : ascii) : ascii :=
  let n := code c in
  if ((65 <=? n) && (n <=? 90))
     || ((192 <=? n) && (n <=? 222) && negb (n =? 215))
  then ascii_of_nat (n + 32) else c.

Fixpoint lower (s : string) : string :=
  match s with
  | EmptyString => EmptyString
  | String c s' => String (lower_char c) (lower s')
  end.

Definition len (s : string) : nat := String.length s.

(** [sub in s] *)
Fixpoint contains (sub s : string) : bool :=
  if String.prefix sub s then true
  else match s with
       | EmptyString => false
       | String _ s' => contains sub s'
       end.

Fixpoint lstrip (s : string) : string :=
  match s with
  | EmptyString => EmptyString
  | String c s' => if is_space c then lstrip s' else s
  end.

Fixpoint rstrip (s : string) : string :=
  match s with
  | EmptyString => EmptyString
  | String c s' =>
      match rstrip s' with
      | EmptyString => if is_space c then EmptyString else String c EmptyString
      | t => String c t
      end
  end.

(** [s.strip()] *)
Definition strip (s : string) : string := rstrip (lstrip s).

(** [s[:n]] *)
Fixpoint take (n : nat) (s : string) : string :=
  match n, s with
  | S n', String c s' => String c (take n' s')
  | _, _ => EmptyString
  end.

(** [s.split(sep)] for a one-character separator: never empty, one
    more field than there are separators. *)
Fixpoint split (sep : ascii) (s : string) : list string :=
  match s with
  | EmptyString => [EmptyString]
  | String c s' =>
      if Ascii.eqb c sep then EmptyString :: split sep s'
      else match split sep s' with
           | [] => [String c EmptyString]
           | f :: fs => String c f :: fs
           end
  end.

(** [sep.join(fields)] *)
Fixpoint join (sep : ascii) (fields : list string) : string :=
  match fields with
  | [] => EmptyString
  | [f] => f
  | f :: fs => f +:+ String sep (join sep fs)
  end.

End Py.

(** ** Regular expressions

    The fragment of Python's [re] syntax that the script uses. *)

Module Re.

Inductive regex : Type :=
| Chr (c : ascii)            (* a literal character *)
| Dot                        (* [.]    any character but a newline *)
| NotChr (c : ascii)         (* [[^c]] any character but [c] *)
| Dig                        (* [\d] *)
| Spc                        (* [\s] *)
| Eol                        (* [$] *)
| Eps                        (* the empty pattern *)
| Seq (r1 r2 : regex)
| Alt (r1 r2 : regex)        (* [r1|r2], [r1] tried first *)
| Star (r : regex)           (* [r*]  greedy *)
| LazyStar (r : regex)       (* [r*?] lazy *)
| Group (n : nat) (r : regex). (* the capturing group number [n] *)

Definition Plus (r : regex) : regex := Seq r (Star r).          (* [r+] *)
Definition LazyPlus (r : regex) : regex := Seq r (LazyStar r).  (* [r+?] *)
Definition Opt (r : regex) : regex := Alt r Eps.                (* [r?] *)

(** A literal string, also what [re.escape] stands for. *)
Fixpoint Lit (s : string) : regex :=
  match s with
  | EmptyString => Eps
  | String c s' => Seq (Chr c) (Lit s')
  end.

Fixpoint seq (rs : list regex) : regex :=
  match rs with
  | [] => Eps
  | r :: rs' => Seq r (seq rs')
  end.

(** Captured groups, latest binding first. *)
Definition caps := list (nat * string).

Fixpoint group (n : nat) (cs : caps) : string :=
  match cs with
  | [] => EmptyString
  | (m, s) :: cs' => if Nat.eqb n m then s else group n cs'
  end.

(** What was consumed between the input [s] and its suffix [rest]. *)
Definition consumed (s rest : string) : string :=
  Py.take (Py.len s - Py.len rest) s.

(** A match: the groups and the input left after the match. *)
Definition result : Type := caps * string.

(** [ic] is the flag [re.IGNORECASE]. *)
Definition chr_eq (ic : bool) (p c : ascii) : bool :=
  if ic then Ascii.eqb (Py.lower_char p) (Py.lower_char c) else Ascii.eqb p c.

Definition step1 (ok : ascii -> bool) (s : string)
    (k : string -> option result) : option result :=
  match s with
  | String c s' => if ok c then k s' else None
  | EmptyString => None
  end.

(** A matcher takes the input, the groups so far and what remains to
    be matched afterwards. *)
Definition cont : Type := string -> caps -> option result.
Definition matcher : Type := string -> caps -> cont -> option result.

(** Greedy repetition of [body]: one more round is tried before the
    rest of the pattern.  A round only counts when it consumed input, as
    in Python's engine, so [S (len s)] rounds of fuel are never used up. *)
Fixpoint star_loop (body : matcher) (k : cont) (fuel : nat) (s : string) (cs : caps)
    {struct fuel} : option result :=
  match fuel with
  | O => k s cs
  | S fuel' =>
      match body s cs
              (fun s' cs' =>
                 if Py.len s' <? Py.len s then star_loop body k fuel' s' cs' else None) with
      | Some m => Some m
      | None => k s cs
      end
  end.

(** Lazy repetition: the rest of the pattern is tried before one more
    round. *)
Fixpoint lazy_loop (body : matcher) (k : cont) (fuel : nat) (s : string) (cs : caps)
    {struct fuel} : option result :=
  match fuel with
  | O => k s cs
  | S fuel' =>
      match k s cs with
      | Some m => Some m
      | None =>
          body s cs
            (fun s' cs' =>
               if Py.len s' <? Py.len s then lazy_loop body k fuel' s' cs' else None)
      end
  end.

(** The backtracking matcher, in continuation-passing style: [k] is
    what remains to be matched after [r]. *)
Fixpoint run (ic : bool) (r : regex) (s : string) (cs : caps) (k : cont)
    {struct r} : option result :=
  match r with
  | Chr p => step1 (chr_eq ic p) s (fun s' => k s' cs)
  | Dot => step1 (fun c => negb (Ascii.eqb c Py.newline)) s (fun s' => k s' cs)
  | NotChr p => step1 (fun c => negb (chr_eq ic p c)) s (fun s' => k s' cs)
  | Dig => step1 Py.is_digit s (fun s' => k s' cs)
  | Spc => step1 Py.is_space s (fun s' => k s' cs)
  | Eol =>
      match s with
      | EmptyString => k s cs
      | String c EmptyString => if Ascii.eqb c Py.newline then k s cs else None
      | _ => None
      end
  | Eps => k s cs
  | Seq r1 r2 => run ic r1 s cs (fun s' cs' => run ic r2 s' cs' k)
  | Alt r1 r2 =>
      match run ic r1 s cs k with
      | Some m => Some m
      | None => run ic r2 s cs k
      end
  | Star r' => star_loop (run ic r') k (S (Py.len s)) s cs
  | LazyStar r' => lazy_loop (run ic r') k (S (Py.len s)) s cs
  | Group n r' => run ic r' s cs (fun s' cs' => k s' ((n, consumed s s') :: cs'))
  end.

(** [re.match]: a match that starts at the head of [s]. *)
Definition match_here (ic : bool) (r : regex) (s : string) : option result :=
  run ic r s [] (fun rest cs => Some (cs, rest)).

(** [re.search]: the leftmost match. *)
Fixpoint search (ic : bool) (r : regex) (s : string) : option result :=
  match match_here ic r s with
  | Some m => Some m
  | None =>
      match s with
      | EmptyString => None
      | String _ s' => search ic r s'
      end
  end.

(** [re.sub(r, "\\1", s)]: every non-overlapping match, from the left,
    is replaced by its group 1.  (A match that consumes nothing is
    stepped over; no pattern of the script has one.) *)
Fixpoint sub_group1 (fuel : nat) (ic : bool) (r : regex) (s : string) : string :=
  match fuel with
  | O => s
  | S fuel' =>
      match match_here ic r s with
      | Some (cs, rest) =>
          if Py.len rest <? Py.len s
          then group 1 cs +:+ sub_group1 fuel' ic r rest
          else match s with
               | EmptyString => EmptyString
               | String c s' => String c (sub_group1 fuel' ic r s')
               end
      | None =>
          match s with
          | EmptyString => EmptyString
          | String c s' => String c (sub_group1 fuel' ic r s')
          end
      end
  end.

Definition sub (ic : bool) (r : regex) (s : string) : string :=
  sub_group1 (S (Py.len s)) ic r s.

(** What it means for a pattern to match: [matches ic r s cs s' cs']
    says that [r] matches a prefix of [s], leaves [s'] and turns the
    groups [cs] into [cs'].  It ignores priorities. *)
Inductive matches (ic : bool) : regex -> string -> caps -> string -> caps -> Prop :=
| m_chr p c s cs :
    chr_eq ic p c = true -> matches ic (Chr p) (String c s) cs s cs
| m_dot c s cs :
    Ascii.eqb c Py.newline = false -> matches ic Dot (String c s) cs s cs
| m_notchr p c s cs :
    chr_eq ic p c = false -> matches ic (NotChr p) (String c s) cs s cs
| m_dig c s cs :
    Py.is_digit c = true -> matches ic Dig (String c s) cs s cs
| m_spc c s cs :
    Py.is_space c = true -> matches ic Spc (String c s) cs s cs
| m_eol s cs :
    s = EmptyString \/ s = String Py.newline EmptyString -> matches ic Eol s cs s cs
| m_eps s cs : matches ic Eps s cs s cs
| m_seq r1 r2 s cs s1 cs1 s2 cs2 :
    matches ic r1 s cs s1 cs1 -> matches ic r2 s1 cs1 s2 cs2 ->
    matches ic (Seq r1 r2) s cs s2 cs2
| m_alt_l r1 r2 s cs s' cs' :
    matches ic r1 s cs s' cs' -> matches ic (Alt r1 r2) s cs s' cs'
| m_alt_r r1 r2 s cs s' cs' :
    matches ic r2 s cs s' cs' -> matches ic (Alt r1 r2) s cs s' cs'
| m_star_stop r s cs : matches ic (Star r) s cs s cs
| m_star_more r s cs s1 cs1 s2 cs2 :
    matches ic r s cs s1 cs1 -> matches ic (Star r) s1 cs1 s2 cs2 ->
    matches ic (Star r) s cs s2 cs2
| m_lazy_stop r s cs : matches ic (LazyStar r) s cs s cs
| m_lazy_more r s cs s1 cs1 s2 cs2 :
    matches ic r s cs s1 cs1 -> matches ic (LazyStar r) s1 cs1 s2 cs2 ->
    matches ic (LazyStar r) s cs s2 cs2
| m_group n r s cs s' cs' :
    matches ic r s cs s' cs' ->
    matches ic (Group n r) s cs s' ((n, consumed s s') :: cs').

(** A pattern without capturing groups. *)
Fixpoint groupless (r : regex) : bool :=
  match r with
  | Group _ _ => false
  | Seq r1 r2 | Alt r1 r2 => groupless r1 && groupless r2
  | Star r' | LazyStar r' => groupless r'
  | _ => true
  end.

End Re.

(** ** The file system *)

Module Fs.

(** A path is the list of its components below the root. *)
Definition Path : Type := list string.

(** A regular file carries its modification time and what
    [gzip.open(p, 'rt', encoding='utf-8', errors='ignore').read()]
    gives for it: [None] when opening or decompressing raises. *)
#[warning="-register-all"] Inductive node : Type :=
| File (mtime : Z) (text : option string)
| Dir (mtime : Z) (entries : list (string * node)).

Definition mtime_of (n : node) : Z :=
  match n with
  | File t _ => t
  | Dir t _ => t
  end.

Fixpoint find_entry (name : string) (es : list (string * node)) : option node :=
  match es with
  | [] => None
  | (n, x) :: es' => if String.eqb n name then Some x else find_entry name es'
  end.

Fixpoint lookup (n : node) (p : Path) : option node :=
  match p with
  | [] => Some n
  | c :: p' =>
      match n with
      | Dir _ es =>
          match find_entry c es with
          | Some n' => lookup n' p'
          | None => None
          end
      | File _ _ => None
      end
  end.

(** [p.exists()] *)
Definition exists_ (root : node) (p : Path) : bool :=
  match lookup root p with Some _ => true | None => false end.

(** [p.stat().st_mtime]; [None] when [stat] raises, see [stat_errno]. *)
Definition stat_mtime (root : node) (p : Path) : option Z :=
  match lookup root p with Some n => Some (mtime_of n) | None => None end.

(** Why [p.stat()] fails when it fails: a component of the path is
    missing ([ENOENT]), or a component before the last is a regular
    file ([ENOTDIR]). *)
Inductive errno : Type := ENOENT | ENOTDIR.

Fixpoint stat_errno (n : node) (p : Path) : errno :=
  match p with
  | [] => ENOENT
  | c :: p' =>
      match n with
      | Dir _ es =>
          match find_entry c es with
          | Some n' => stat_errno n' p'
          | None => ENOENT
          end
      | File _ _ => ENOTDIR
      end
  end.

(** The text of a gzipped log; [None] when reading it raises. *)
Definition read_gzip (root : node) (p : Path) : option string :=
  match lookup root p with
  | Some (File _ text) => text
  | _ => None
  end.

(** Shell-style matching of one path component: [*] is any run of
    characters, [?] any one character, everything else stands for
    itself (bracket classes are not modelled). *)
Fixpoint fnmatch (pat name : string) {struct pat} : bool :=
  match pat with
  | EmptyString => match name with EmptyString => true | _ => false end
  | String c pat' =>
      if Ascii.eqb c "*"%char then
        (fix any (name : string) : bool :=
           if fnmatch pat' name then true
           else match name with
                | EmptyString => false
                | String _ name' => any name'
                end) name
      else
        match name with
        | EmptyString => false
        | String d name' =>
            (Ascii.eqb c "?"%char || Ascii.eqb c d) && fnmatch pat' name'
        end
  end.

(** [p.glob(pattern)] for a one-component pattern: the entries of the
    directory [p] whose name matches, in listing order; nothing when [p]
    is not a directory. *)
Definition glob (root : node) (p : Path) (pattern : string) : list Path :=
  match lookup root p with
  | Some (Dir _ es) =>
      map (fun e => p ++ [fst e]) (filter (fun e => fnmatch pattern (fst e) = true) es)
  | _ => []
  end.

(** [max(x :: l, key=key)]: the first element with the greatest key. *)
Fixpoint max_by {A : Type} (key : A -> Z) (best : A) (l : list A) : A :=
  match l with
  | [] => best
  | x :: l' => max_by key (if (key best <? key x)%Z then x else best) l'
  end.

(** [PurePath.stem] of a final component: the name without its last
    suffix; a leading or a trailing dot starts no suffix. *)
Fixpoint rfind_dot (s : string) : option nat :=
  match s with
  | EmptyString => None
  | String c s' =>
      match rfind_dot s' with
      | Some i => Some (S i)
      | None => if Ascii.eqb c "."%char then Some 0 else None
      end
  end.

Definition name_of (p : Path) : string := List.last p EmptyString.

Definition stem (p : Path) : string :=
  let name := name_of p in
  match rfind_dot name with
  | Some i => if (0 <? i) && (i <? Py.len name - 1) then Py.take i name else name
  | None => name
  end.

(** What the script sees of the machine at one moment. *)
Record FS : Type := {
  root : node;
  resolve : string -> Path;   (* [Path(s).resolve()] *)
  home : Path                 (* [Path.home()], taken to succeed *)
}.

End Fs.

(** ** The patterns of [parse_build_log] *)

Module Pat.
Import Re.

(** [(?:swift|c(?:pp)?|h|mm?)] *)
Definition source_ext : regex :=
  Alt (Lit "swift")
    (Alt (Seq (Chr "c") (Opt (Lit "pp")))
       (Alt (Chr "h") (Seq (Chr "m") (Opt (Chr "m"))))).

(** [(/[^:]+\.(?:swift|c(?:pp)?|h|mm?))] as group 1 *)
Definition source_path : regex :=
  Group 1 (seq [Chr "/"; Plus (NotChr ":"); Chr "."; source_ext]).

(** [(/[^:]+\.(?:swift|c(?:pp)?|h|mm?)):\d+:\d+.*?TAG\s*(.+)], where
    [TAG] is [error:] or [warning:] *)
Definition file_tag (tag : string) : regex :=
  seq [source_path; Chr ":"; Plus Dig; Chr ":"; Plus Dig; LazyStar Dot;
       Lit tag; Star Spc; Group 2 (Plus Dot)].

Definition file_error : regex := file_tag "error:".
Definition file_warning : regex := file_tag "warning:".

(** [(/[^:]+\.(?:swift|c(?:pp)?|h|mm?)):(.+)] *)
Definition simple_error : regex :=
  seq [source_path; Chr ":"; Group 2 (Plus Dot)].

(** ['.*' + re.escape(file_path) + ':(.+?)(?:\s*$)'] *)
Definition error_msg (file_path : string) : regex :=
  seq [Star Dot; Lit file_path; Chr ":"; Group 1 (LazyPlus Dot); Star Spc; Eol].

(** [.*Q([^Q]+)Q.*], where [Q] is the double quote *)
Definition quoted : regex :=
  seq [Star Dot; Chr Py.dquote; Group 1 (Plus (NotChr Py.dquote));
       Chr Py.dquote; Star Dot].

(** [(/[^:]+\.EXT):\d+:\d+\s+], where [EXT] is [swift] or [mm?] *)
Definition located (ext : regex) : regex :=
  seq [Group 1 (seq [Chr "/"; Plus (NotChr ":"); Chr "."; ext]);
       Chr ":"; Plus Dig; Chr ":"; Plus Dig; Plus Spc].

(** [(/[^:]+\.EXT):(\d+):(\d+)\s+(.+)] *)
Definition diagnostic (ext : regex) : regex :=
  seq [Group 1 (seq [Chr "/"; Plus (NotChr ":"); Chr "."; ext]);
       Chr ":"; Group 2 (Plus Dig); Chr ":"; Group 3 (Plus Dig); Plus Spc;
       Group 4 (Plus Dot)].

Definition swift_ext : regex := Lit "swift".
Definition objc_ext : regex := Seq (Chr "m") (Opt (Chr "m")).

(** [note:\s*(.+)] *)
Definition note : regex := seq [Lit "note:"; Star Spc; Group 1 (Plus Dot)].

Definition swift_phrases : list string :=
  ["cannot override"; "ambiguous use"; "overriding declaration";
   "overriding property must be"; "conflicts with"; "must be unwrapped";
   "requires an 'override' keyword"; "getter for"; "setter for";
   "value of optional type"].

Definition objc_phrases : list string :=
  ["property"; "not found"; "no visible @interface"; "declares the selector"].

End Pat.

(** ** Effects: results, events and the world *)

Inductive exn : Type :=
| FileNotFoundError
| NotADirectoryError
| PermissionError
| OSError
| KeyError.

(** How [subprocess.run(['osascript', ...], check=True)] ends: the
    script exits with status 0, it exits with another status and
    [CalledProcessError] is raised, or the process cannot be run at all
    and another exception is raised ([FileNotFoundError] when there is
    no [osascript], [PermissionError] when it may not be executed). *)
Inductive ran : Type :=
| Exited
| CalledProcessError
| Failed (e : exn).

(** A call returns, raises, or is still running when the fuel of the
    model is used up. *)
Inductive res (A : Type) : Type :=
| Ret (a : A)
| Raise (e : exn)
| OutOfFuel.
Arguments Ret {A} a.
Arguments Raise {A} e.
Arguments OutOfFuel {A}.

(** The steps a run performs on the outside, in order. *)
Inductive event : Type :=
| EvFrontmost                 (* [osascript]: which application is frontmost *)
| EvOpen                      (* [osascript]: open the project in Xcode *)
| EvKeystroke (key : string)  (* [osascript]: Cmd+key in Xcode, then Cmd+Tab *)
| EvSleep (seconds : nat)     (* [time.sleep] *)
| EvLatestLog                 (* a call of [get_latest_build_log] *)
| EvParse (log : Fs.Path).    (* a call of [parse_build_log] *)

(** A computation: its result and the events it performed. *)
Definition M (A : Type) : Type := res A * list event.

Definition ret {A} (a : A) : M A := (Ret a, []).
Definition raise {A} (e : exn) : M A := (Raise e, []).
Definition emit (e : event) : M unit := (Ret tt, [e]).

Definition bind {A B} (m : M A) (f : A -> M B) : M B :=
  match m with
  | (Ret a, t1) => let (r, t2) := f a in (r, t1 ++ t2)
  | (Raise e, t1) => (Raise e, t1)
  | (OutOfFuel, t1) => (OutOfFuel, t1)
  end.

Notation "x <- m ;; k" := (bind m (fun x => k))
  (at level 100, m at next level, right associativity).
Notation "m ;;; k" := (bind m (fun _ => k))
  (at level 100, right associativity).

(** One turn of a [while] loop: go round again, or leave with a value. *)
Inductive turn (S R : Type) : Type :=
| Continue (s : S)
| Leave (r : R).
Arguments Continue {S R} s.
Arguments Leave {S R} r.

Fixpoint while {S R : Type} (fuel : nat) (body : S -> M (turn S R)) (s : S) : M R :=
  match fuel with
  | O => (OutOfFuel, [])
  | S fuel' =>
      t <- body s ;;
      match t with
      | Continue s' => while fuel' body s'
      | Leave r => ret r
      end
  end.

(** The answers of the outside world to one run.  The loop tests of
    [wait_for_build_completion] are numbered 0, 1, 2, ... across its two
    loops; [w_clock j] is what [time.time()] returns in test [j], and
    the three file-system views are what the calls after that test see.
    Nothing relates one view to the next. *)
Record World : Type := {
  w_fs_initial : Fs.FS;        (* seen when [initial_log] is computed *)
  w_initial_time : Z;          (* [initial_time = time.time()] *)
  w_start_time : Z;            (* [start_time = time.time()] *)
  w_clock : nat -> Z;
  w_fs_glob : nat -> Fs.FS;    (* seen by [get_latest_build_log()] *)
  w_fs_stat : nat -> Fs.FS;    (* seen by [current_log.stat()] *)
  w_fs_read : nat -> Fs.FS;    (* seen by [parse_build_log(current_log)] *)
  w_frontmost : option string; (* stdout of the frontmost query; [None]: it raised *)
  w_open : ran;                (* how the open script ends *)
  w_keystroke : ran;           (* how the keystroke script ends *)
  w_fs_final : Fs.FS;          (* seen by [build] when it looks for the log *)
  w_fs_final_read : Fs.FS      (* seen by [build] when it parses the log *)
}.

(** The open script, the keystroke script exits with status 0. *)
Definition w_open_ok (w : World) : bool :=
  match w_open w with Exited => true | _ => false end.
Definition w_keystroke_ok (w : World) : bool :=
  match w_keystroke w with Exited => true | _ => false end.

Definition second : Z := 1000000000.

(** ** The class [XcodeRemote] *)

Module XcodeRemote.

Record t : Type := {
  project_path : Fs.Path;
  project_name : string;
  derived_data_path : Fs.Path
}.

(** [__init__] *)
Definition init (fs : Fs.FS) (project_path : string) : res t :=
  let path := Fs.resolve fs project_path in
  if negb (Fs.exists_ (Fs.root fs) path) then Raise FileNotFoundError
  else Ret {| project_path := path;
              project_name := Fs.stem path;
              derived_data_path :=
                Fs.home fs ++ ["Library"; "Developer"; "Xcode"; "DerivedData"] |}.

(** The key [lambda p: p.stat().st_mtime] of the two [max] calls.  It is
    only applied to paths that [glob] has just listed in the same view
    of the file system, where [stat] succeeds. *)
Definition mtime_key (fs : Fs.FS) (p : Fs.Path) : Z :=
  match Fs.stat_mtime (Fs.root fs) p with Some m => m | None => 0%Z end.

Definition find_project_derived_data (self : t) (fs : Fs.FS) : option Fs.Path :=
  let pattern := project_name self +:+ "-*" in
  let matches := Fs.glob (Fs.root fs) (derived_data_path self) pattern in
  match matches with
  | m :: ms => Some (Fs.max_by (mtime_key fs) m ms)
  | [] => None
  end.

Definition get_latest_build_log (self : t) (fs : Fs.FS) : option Fs.Path :=
  match find_project_derived_data self fs with
  | None => None
  | Some derived_data =>
      let logs_dir := derived_data ++ ["Logs"; "Build"] in
      if negb (Fs.exists_ (Fs.root fs) logs_dir) then None
      else
        let log_files := Fs.glob (Fs.root fs) logs_dir "*.xcactivitylog" in
        match log_files with
        | f :: fs' => Some (Fs.max_by (mtime_key fs) f fs')
        | [] => None
        end
  end.

(** The accumulator [result] of [parse_build_log]: three sets under
    three fixed keys. *)
Record Result : Type := {
  errors : gset string;
  warnings : gset string;
  notes : gset string
}.

Definition empty_result : Result :=
  {| errors := ∅; warnings := ∅; notes := ∅ |}.

Definition add_error (msg : string) (r : Result) : Result :=
  {| errors := {[msg]} ∪ errors r; warnings := warnings r; notes := notes r |}.
Definition add_warning (msg : string) (r : Result) : Result :=
  {| errors := errors r; warnings := {[msg]} ∪ warnings r; notes := notes r |}.
Definition add_note (msg : string) (r : Result) : Result :=
  {| errors := errors r; warnings := warnings r; notes := {[msg]} ∪ notes r |}.

Definition colon : string := ":".
Definition quote_str : string := String Py.dquote EmptyString.

Definition found (m : option Re.result) : bool :=
  match m with Some _ => true | None => false end.

(** [any(pattern in line.lower() for pattern in phrases)] *)
Definition any_phrase (phrases : list string) (line : string) : bool :=
  existsb (fun pattern => Py.contains pattern (Py.lower line)) phrases.

(** The branch shared by the Swift and the Objective-C heuristics. *)
Definition heuristic_error (ext : Re.regex) (line : string) (result : Result) : Result :=
  match Re.search false (Pat.diagnostic ext) line with
  | Some (m, _) =>
      let file_path := Re.group 1 m in
      let line_num := Re.group 2 m in
      let col_num := Re.group 3 m in
      let message := Re.group 4 m in
      let clean_message := Py.take 200 (Py.strip message) in
      add_error (file_path +:+ colon +:+ line_num +:+ colon +:+ col_num
                 +:+ " " +:+ clean_message) result
  | None => result
  end.

(** The branch of a line that carries the tag [error:]. *)
Definition tagged_error (line : string) (result : Result) : Result :=
  match Re.search true Pat.file_error line with
  | Some (m, _) =>
      add_error (Re.group 1 m +:+ colon +:+ Py.strip (Re.group 2 m)) result
  | None =>
      match Re.search true Pat.simple_error line with
      | Some (m, _) =>
          let file_path := Re.group 1 m in
          let message_part := Re.group 2 m in
          let clean_message :=
            match Re.search false (Pat.error_msg file_path) message_part with
            | Some (m', _) => Py.strip (Re.group 1 m')
            | None =>
                let clean_message := Py.strip message_part in
                let clean_message := Re.sub false Pat.quoted clean_message in
                if negb (Py.contains quote_str clean_message)
                then Py.strip message_part
                else clean_message
            end in
          match clean_message with
          | EmptyString => result
          | _ => add_error (file_path +:+ colon +:+ clean_message) result
          end
      | None => result
      end
  end.

(** ['tag' in line.lower()] *)
Definition has_tag (tag line : string) : bool :=
  Py.contains tag (Py.lower line).

(** [len(line) < 1000 and re.search(r'(/[^:]+\.EXT):\d+:\d+\s+', line)] *)
Definition located (ext : Re.regex) (line : string) : bool :=
  (Py.len line <? 1000) && found (Re.search false (Pat.located ext) line).

(** The body of [for line in lines]. *)
Definition process_line (line : string) (result : Result) : Result :=
  if has_tag "error:" line then
    tagged_error line result
  else if located Pat.swift_ext line then
    if any_phrase Pat.swift_phrases line
    then heuristic_error Pat.swift_ext line result
    else result
  else if located Pat.objc_ext line then
    if any_phrase Pat.objc_phrases line
    then heuristic_error Pat.objc_ext line result
    else result
  else if has_tag "warning:" line then
    match Re.search true Pat.file_warning line with
    | Some (m, _) =>
        add_warning (Re.group 1 m +:+ colon +:+ Py.strip (Re.group 2 m)) result
    | None => result
    end
  else if has_tag "note:" line then
    match Re.search true Pat.note line with
    | Some (m, _) => add_note (Py.strip (Re.group 1 m)) result
    | None => result
    end
  else result.

Definition process_lines (lines : list string) (result : Result) : Result :=
  fold_left (fun result line => process_line line result) lines result.

(** The [try] block: the sets stay empty when reading raises, which can
    only happen before the first line is looked at. *)
Definition scan_log (fs : Fs.FS) (log_path : Fs.Path) : Result :=
  match Fs.read_gzip (Fs.root fs) log_path with
  | Some content => process_lines (Py.split Py.newline content) empty_result
  | None => empty_result
  end.

(** The returned dictionary. *)
Definition to_dict (result : Result) : gmap string (list string) :=
  <["errors" := elements (errors result)]>
    (<["warnings" := elements (warnings result)]>
       (<["notes" := elements (notes result)]> ∅)).

Definition parse_build_log (fs : Fs.FS) (log_path : Fs.Path)
    : M (gmap string (list string)) :=
  emit (EvParse log_path) ;;;
  ret (to_dict (scan_log fs log_path)).

(** [results[key]] *)
Definition getitem (results : gmap string (list string)) (key : string)
    : M (list string) :=
  match results !! key with
  | Some v => ret v
  | None => raise KeyError
  end.

(** The exception of a failing [stat]: [FileNotFoundError] when the
    file or a directory above it is missing, [NotADirectoryError] when
    a directory above it has become a regular file.  (Permissions are
    not modelled, so there is no [PermissionError] here.) *)
Definition stat_exn (fs : Fs.FS) (p : Fs.Path) : exn :=
  match Fs.stat_errno (Fs.root fs) p with
  | Fs.ENOENT => FileNotFoundError
  | Fs.ENOTDIR => NotADirectoryError
  end.

(** [p.stat().st_mtime] *)
Definition stat (fs : Fs.FS) (p : Fs.Path) : M Z :=
  match Fs.stat_mtime (Fs.root fs) p with
  | Some m => ret m
  | None => raise (stat_exn fs p)
  end.

Definition latest (self : t) (fs : Fs.FS) : M (option Fs.Path) :=
  emit EvLatestLog ;;;
  ret (get_latest_build_log self fs).

Definition path_eqb (p q : Fs.Path) : bool := bool_decide (p = q).

Section Wait.
Variable self : t.
Variable w : World.
Variable timeout : Z.

Definition in_time (j : nat) : bool :=
  (w_clock w j - w_start_time w <? timeout * second)%Z.

(** The first loop: wait for a new log file, or for the existing one to
    be modified.  It leaves with [Some j'] at its [break], where [j'] is
    the number of the next loop test, and with [None] in its [else]. *)
Definition start_turn (initial_log : option Fs.Path) (j : nat)
    : M (turn nat (option nat)) :=
  if in_time j then
    current_log <- latest self (w_fs_glob w j) ;;
    match current_log with
    | Some cur =>
        match initial_log with
        | None => ret (Leave (Some (S j)))
        | Some ini =>
            if negb (path_eqb cur ini) then ret (Leave (Some (S j)))
            else
              m <- stat (w_fs_stat w j) cur ;;
              if (m >? w_initial_time w)%Z then ret (Leave (Some (S j)))
              else emit (EvSleep 1) ;;; ret (Continue (S j))
        end
    | None => emit (EvSleep 1) ;;; ret (Continue (S j))
    end
  else ret (Leave None).

(** The state of the second loop. *)
Record Poll : Type := {
  last_modified : Z;
  stable_count : nat;
  test : nat                   (* the number of the next loop test *)
}.

(** The second loop: wait until the log file stops being modified.  It
    leaves with [Some (completed, success)] at its [return], and with
    [None] when its condition fails. *)
Definition poll_turn (s : Poll) : M (turn Poll (option (bool * bool))) :=
  let j := test s in
  if in_time j then
    current_log <- latest self (w_fs_glob w j) ;;
    match current_log with
    | Some cur =>
        current_modified <- stat (w_fs_stat w j) cur ;;
        if (current_modified =? last_modified s)%Z then
          let stable_count := stable_count s + 1 in
          if 3 <=? stable_count then
            results <- parse_build_log (w_fs_read w j) cur ;;
            errs <- getitem results "errors" ;;
            let build_success := length errs =? 0 in
            ret (Leave (Some (true, build_success)))
          else
            emit (EvSleep 1) ;;;
            ret (Continue {| last_modified := last_modified s;
                             stable_count := stable_count;
                             test := S j |})
        else
          emit (EvSleep 1) ;;;
          ret (Continue {| last_modified := current_modified;
                           stable_count := 0;
                           test := S j |})
    | None =>
        emit (EvSleep 1) ;;;
        ret (Continue {| last_modified := last_modified s;
                         stable_count := stable_count s;
                         test := S j |})
    end
  else ret (Leave None).

Definition wait_for_build_completion (fuel : nat) : M (bool * bool) :=
  initial_log <- latest self (w_fs_initial w) ;;
  started <- while fuel (start_turn initial_log) 0 ;;
  match started with
  | None => ret (false, false)
  | Some j =>
      finished <- while fuel poll_turn
                    {| last_modified := 0; stable_count := 0; test := j |} ;;
      match finished with
      | Some r => ret r
      | None => ret (false, false)
      end
  end.

End Wait.

(** Only [CalledProcessError] is caught: any other exception of
    [subprocess.run] leaves the method. *)
Definition open_project_in_xcode (w : World) : M bool :=
  emit EvOpen ;;;
  match w_open w with
  | Exited => emit (EvSleep 2) ;;; ret true
  | CalledProcessError => ret false
  | Failed e => raise e
  end.

Definition trigger_build (w : World) (action : string) : M bool :=
  match (if String.eqb action "build" then Some "b"
         else if String.eqb action "run" then Some "r"
         else None) with
  | None => ret false
  | Some keystroke_cmd =>
      emit (EvKeystroke keystroke_cmd) ;;;
      match w_keystroke w with
      | Exited => ret true
      | CalledProcessError => ret false
      | Failed e => raise e
      end
  end.

Definition nonempty (l : list string) : bool :=
  match l with [] => false | _ => true end.

(** The end of [build], from [log_path = self.get_latest_build_log()]
    on: it is only reached when the build has completed. *)
Definition report (self : t) (w : World) (build_success : bool) : M bool :=
  log_path <- latest self (w_fs_final w) ;;
  match log_path with
  | Some p =>
      results <- parse_build_log (w_fs_final_read w) p ;;
      errs <- getitem results "errors" ;;
      if nonempty errs then ret false
      else
        warns <- getitem results "warnings" ;;
        if nonempty warns then ret true
        else ret true
  | None => ret build_success
  end.

Definition xcode_already_active (w : World) : bool :=
  match w_frontmost w with
  | Some stdout => String.eqb (Py.strip stdout) "Xcode"
  | None => false
  end.

Definition build (self : t) (w : World) (action : string) (timeout : Z)
    (fuel : nat) : M bool :=
  emit EvFrontmost ;;;
  opened <- (if negb (xcode_already_active w) then open_project_in_xcode w
             else ret true) ;;
  if negb opened then ret false
  else
    triggered <- trigger_build w action ;;
    if negb triggered then ret false
    else
      r <- wait_for_build_completion self w timeout fuel ;;
      let (completed, build_success) := r in
      if negb completed then ret false
      else report self w build_success.

End XcodeRemote.

(** ** Vocabulary of the properties *)

(** A line matches a language-specific heuristic when it is short, has a
    Swift (or Objective-C) source location and one of the Swift (or
    Objective-C) diagnostic phrases. *)
Definition heuristic (line : string) : bool :=
  (XcodeRemote.located Pat.swift_ext line
   && XcodeRemote.any_phrase Pat.swift_phrases line)
  || (XcodeRemote.located Pat.objc_ext line
      && XcodeRemote.any_phrase Pat.objc_phrases line).

(** The three collections, and what one line contributes: nothing, or
    one entry for one collection. *)
Inductive kind : Type := KError | KWarning | KNote.

Definition add (k : kind) (msg : string) (r : XcodeRemote.Result) : XcodeRemote.Result :=
  match k with
  | KError => XcodeRemote.add_error msg r
  | KWarning => XcodeRemote.add_warning msg r
  | KNote => XcodeRemote.add_note msg r
  end.

Definition add_entry (e : option (kind * string)) (r : XcodeRemote.Result)
    : XcodeRemote.Result :=
  match e with
  | Some (k, msg) => add k msg r
  | None => r
  end.

(** A nonempty string of decimal digits. *)
Fixpoint all_chars (P : ascii -> bool) (s : string) : bool :=
  match s with
  | EmptyString => true
  | String c s' => P c && all_chars P s'
  end.

Definition is_number (s : string) : bool :=
  match s with
  | EmptyString => false
  | _ => all_chars Py.is_digit s
  end.

(** The collection of a kind. *)
Definition field (k : kind) (r : XcodeRemote.Result) : gset string :=
  match k with
  | KError => XcodeRemote.errors r
  | KWarning => XcodeRemote.warnings r
  | KNote => XcodeRemote.notes r
  end.

Definition key_of (k : kind) : string :=
  match k with
  | KError => "errors"
  | KWarning => "warnings"
  | KNote => "notes"
  end.

(** A string that can be one line of a text: it has no newline. *)
Fixpoint is_line (s : string) : bool :=
  match s with
  | EmptyString => true
  | String c s' => negb (Ascii.eqb c Py.newline) && is_line s'
  end.

(** The formatted entry of a heuristic diagnostic:
    [file:line:column message]. *)
Definition diagnostic_entry (file line_num col_num message : string) : string :=
  file +:+ ":" +:+ line_num +:+ ":" +:+ col_num +:+ " " +:+ message.

(** The state of a loop after [n] turns that all went round again. *)
Fixpoint turns {S R : Type} (body : S -> M (turn S R)) (n : nat) (s : S) : option S :=
  match n with
  | O => Some s
  | S n' =>
      match fst (body s) with
      | Ret (Continue s') => turns body n' s'
      | _ => None
      end
  end.

Section Observations.
Variable self : XcodeRemote.t.
Variable w : World.
Variable timeout : Z.

(** What loop test [j] and the calls after it observe: the modification
    time of the newest log, when the test passes, a log is found and
    [stat] succeeds on it. *)
Definition sample (j : nat) : option Z :=
  if XcodeRemote.in_time w timeout j then
    match XcodeRemote.get_latest_build_log self (w_fs_glob w j) with
    | Some cur => Fs.stat_mtime (Fs.root (w_fs_stat w j)) cur
    | None => None
    end
  else None.

(** After loop test [j] no build log has appeared and the existing one
    has not been modified: there is no log, or the newest log is still
    the initial one and its modification time is not after
    [initial_time]. *)
Definition no_new_log (initial_log : option Fs.Path) (j : nat) : Prop :=
  match XcodeRemote.get_latest_build_log self (w_fs_glob w j) with
  | None => True
  | Some cur =>
      initial_log = Some cur
      /\ exists m, Fs.stat_mtime (Fs.root (w_fs_stat w j)) cur = Some m
                   /\ (m <= w_initial_time w)%Z
  end.

(** The state in which the second loop starts. *)
Definition first_poll (j : nat) : XcodeRemote.Poll :=
  {| XcodeRemote.last_modified := 0;
     XcodeRemote.stable_count := 0;
     XcodeRemote.test := j |}.

End Observations.

Definition is_parse (e : event) : Prop :=
  match e with EvParse _ => True | _ => False end.

(** ** A small machine to run the model on *)

Module Demo.

(** The machine of a developer whose project [App.xcodeproj] has one
    DerivedData directory, with the given build logs. *)
Definition machine (logs : list (string * Fs.node)) : Fs.FS :=
  {| Fs.root :=
       Fs.Dir 0
         [("Users",
           Fs.Dir 0
             [("dev",
               Fs.Dir 0
                 [("App.xcodeproj", Fs.Dir 1 []);
                  ("Library",
                   Fs.Dir 0
                     [("Developer",
                       Fs.Dir 0
                         [("Xcode",
                           Fs.Dir 0
                             [("DerivedData",
                               Fs.Dir 0
                                 [("Other-xyz", Fs.Dir 9 []);
                                  ("App-abc",
                                   Fs.Dir 5
                                     [("Logs",
                                       Fs.Dir 0 [("Build", Fs.Dir 0 logs)])])])])])])])])];
     Fs.resolve := fun _ => ["Users"; "dev"; "App.xcodeproj"];
     Fs.home := ["Users"; "dev"] |}.

Definition self : XcodeRemote.t :=
  {| XcodeRemote.project_path := ["Users"; "dev"; "App.xcodeproj"];
     XcodeRemote.project_name := "App";
     XcodeRemote.derived_data_path :=
       ["Users"; "dev"; "Library"; "Developer"; "Xcode"; "DerivedData"] |}.

Definition build_dir : Fs.Path :=
  ["Users"; "dev"; "Library"; "Developer"; "Xcode"; "DerivedData"; "App-abc";
   "Logs"; "Build"].

Definition warning_line : string := "/a/b.swift:3:5: warning: unused variable".
Definition bare_warning_line : string := "warning: unused variable".
Definition swift_line : string := "/p/q.swift:7:8 conflicts with previous".

(** Two logs and a file that is not a log; [new] is the newest log. *)
Definition two_logs : list (string * Fs.node) :=
  [("old.xcactivitylog", Fs.File 10 (Some warning_line));
   ("new.xcactivitylog", Fs.File 20 (Some warning_line));
   ("notes.txt", Fs.File 99 None)].

(** The same warning twice, and once. *)
Definition twice : list (string * Fs.node) :=
  [("a.xcactivitylog",
    Fs.File 10 (Some (Py.join Py.newline [warning_line; warning_line])))].
Definition once : list (string * Fs.node) :=
  [("a.xcactivitylog", Fs.File 10 (Some (Py.join Py.newline [warning_line])))].

(** A log that is not gzip data. *)
Definition broken : list (string * Fs.node) :=
  [("a.xcactivitylog", Fs.File 10 None)].

(** A world whose clock advances by one second at each loop test and
    whose file system never changes after the start. *)
Definition world (before after : list (string * Fs.node)) : World :=
  {| w_fs_initial := machine before;
     w_initial_time := 0;
     w_start_time := 0;
     w_clock := fun j => (Z.of_nat j * second)%Z;
     w_fs_glob := fun _ => machine after;
     w_fs_stat := fun _ => machine after;
     w_fs_read := fun _ => machine after;
     w_frontmost := Some "Finder";
     w_open := CalledProcessError;
     w_keystroke := Exited;
     w_fs_final := machine after;
     w_fs_final_read := machine after |}.

(** An error in the simple format whose message quotes a name. *)
Definition quoted_error_line : string :=
  "/a/b.h: error: use " +:+ String Py.dquote ("x" +:+ String Py.dquote " here").

(** A world in which the log that [glob] lists is gone when [stat]
    looks at it. *)
Definition vanishing : World :=
  {| w_fs_initial := machine two_logs;
     w_initial_time := 0;
     w_start_time := 0;
     w_clock := fun j => (Z.of_nat j * second)%Z;
     w_fs_glob := fun _ => machine two_logs;
     w_fs_stat := fun _ => machine [];
     w_fs_read := fun _ => machine two_logs;
     w_frontmost := Some "Xcode";
     w_open := CalledProcessError;
     w_keystroke := Exited;
     w_fs_final := machine two_logs;
     w_fs_final_read := machine two_logs |}.

(** The machine after [Logs] has been replaced by a regular file. *)
Definition machine_without_logs : Fs.FS :=
  {| Fs.root :=
       Fs.Dir 0
         [("Users",
           Fs.Dir 0
             [("dev",
               Fs.Dir 0
                 [("App.xcodeproj", Fs.Dir 1 []);
                  ("Library",
                   Fs.Dir 0
                     [("Developer",
                       Fs.Dir 0
                         [("Xcode",
                           Fs.Dir 0
                             [("DerivedData",
                               Fs.Dir 0
                                 [("App-abc",
                                   Fs.Dir 5 [("Logs", Fs.File 0 None)])])])])])])])];
     Fs.resolve := fun _ => ["Users"; "dev"; "App.xcodeproj"];
     Fs.home := ["Users"; "dev"] |}.

(** A world in which [Logs] has become a regular file when [stat]
    looks at the log that [glob] listed. *)
Definition blocked : World :=
  {| w_fs_initial := machine two_logs;
     w_initial_time := 0;
     w_start_time := 0;
     w_clock := fun j => (Z.of_nat j * second)%Z;
     w_fs_glob := fun _ => machine two_logs;
     w_fs_stat := fun _ => machine_without_logs;
     w_fs_read := fun _ => machine two_logs;
     w_frontmost := Some "Xcode";
     w_open := CalledProcessError;
     w_keystroke := Exited;
     w_fs_final := machine two_logs;
     w_fs_final_read := machine two_logs |}.

(** A world without [osascript]: no script can be run. *)
Definition without_osascript : World :=
  {| w_fs_initial := machine [];
     w_initial_time := 0;
     w_start_time := 0;
     w_clock := fun j => (Z.of_nat j * second)%Z;
     w_fs_glob := fun _ => machine two_logs;
     w_fs_stat := fun _ => machine two_logs;
     w_fs_read := fun _ => machine two_logs;
     w_frontmost := None;
     w_open := Failed FileNotFoundError;
     w_keystroke := Failed FileNotFoundError;
     w_fs_final := machine two_logs;
     w_fs_final_read := machine two_logs |}.

(** A world in which the project has to be opened first, and a new log
    appears. *)
Definition opening (after : list (string * Fs.node)) : World :=
  {| w_fs_initial := machine [];
     w_initial_time := 0;
     w_start_time := 0;
     w_clock := fun j => (Z.of_nat j * second)%Z;
     w_fs_glob := fun _ => machine after;
     w_fs_stat := fun _ => machine after;
     w_fs_read := fun _ => machine after;
     w_frontmost := Some "Finder";
     w_open := Exited;
     w_keystroke := Exited;
     w_fs_final := machine after;
     w_fs_final_read := machine after |}.

(** A world in which the log is written to all the time: at each loop
    test it has another modification time. *)
Definition busy : World :=
  {| w_fs_initial := machine [];
     w_initial_time := 0;
     w_start_time := 0;
     w_clock := fun j => (Z.of_nat j * second)%Z;
     w_fs_glob := fun j => machine [("a.xcactivitylog", Fs.File (Z.of_nat j) None)];
     w_fs_stat := fun j => machine [("a.xcactivitylog", Fs.File (Z.of_nat j) None)];
     w_fs_read := fun j => machine [("a.xcactivitylog", Fs.File (Z.of_nat j) None)];
     w_frontmost := Some "Xcode";
     w_open := CalledProcessError;
     w_keystroke := Exited;
     w_fs_final := machine [];
     w_fs_final_read := machine [] |}.

(** A world in which Xcode is frontmost and a new log appears. *)
Definition building (after : list (string * Fs.node)) : World :=
  {| w_fs_initial := machine [];
     w_initial_time := 0;
     w_start_time := 0;
     w_clock := fun j => (Z.of_nat j * second)%Z;
     w_fs_glob := fun _ => machine after;
     w_fs_stat := fun _ => machine after;
     w_fs_read := fun _ => machine after;
     w_frontmost := Some "Xcode";
     w_open := CalledProcessError;
     w_keystroke := Exited;
     w_fs_final := machine after;
     w_fs_final_read := machine after |}.

End Demo.

(** An event that is not the parsing of a log. *)
Definition quiet (e : event) : Prop := ~ is_parse e.

(** ** The command line *)

Module Cli.

(** How [subprocess.run(..., check=True, timeout=5)] ends: as a run
    without a time limit does, or with [TimeoutExpired]. *)
Inductive ended : Type :=
| Ended (r : ran)
| TimeoutExpired.

(** The namespace that [parser.parse_args()] returns.  The parser only
    lets the actions [build] and [run] through. *)
Record Args : Type := {
  project_path : string;
  action : string;
  target : option string;
  timeout : Z
}.

(** How [parser.parse_args()] ends: it returns the namespace, or it
    prints the help and exits with status 0, or it prints a usage error
    and exits with status 2.  How [sys.argv] is read is left to
    [argparse]. *)
Inductive parsed : Type :=
| Namespace (args : Args)
| HelpRequested
| UsageError.

(** The machine [main] runs on: how the command line is parsed, the
    end of the accessibility test script, the file system the
    constructor sees, and the world of the build. *)
Record Host : Type := {
  h_parse_args : parsed;
  h_accessibility : ended;
  h_fs : Fs.FS;
  h_world : World
}.

(** Only [CalledProcessError] and [TimeoutExpired] are caught. *)
Definition check_accessibility_permissions (h : Host) : res bool :=
  match h_accessibility h with
  | Ended Exited => Ret true
  | Ended CalledProcessError => Ret false
  | TimeoutExpired => Ret false
  | Ended (Failed e) => Raise e
  end.

(** [main].  [Ret n] is an exit with status [n], by [sys.exit(n)] or by
    [argparse]; [Raise e] is the exception [e] leaving [main].
    [SystemExit] is not an [Exception], so the [except] clause only
    sees what the constructor and [build] raise; the permission check
    is outside the [try]. *)
Definition main (h : Host) (fuel : nat) : M nat :=
  match h_parse_args h with
  | HelpRequested => ret 0
  | UsageError => ret 2
  | Namespace args =>
      match check_accessibility_permissions h with
      | Raise e => raise e
      | OutOfFuel => (OutOfFuel, [])
      | Ret false => ret 1
      | Ret true =>
          match XcodeRemote.init (h_fs h) (project_path args) with
          | Ret xcode_remote =>
              match XcodeRemote.build xcode_remote (h_world h) (action args)
                      (timeout args) fuel with
              | (Ret success, events) => (Ret (if success then 0 else 1), events)
              | (Raise e, events) => (Ret 1, events)
              | (OutOfFuel, events) => (OutOfFuel, events)
              end
          | Raise e => ret 1
          | OutOfFuel => (OutOfFuel, [])
          end
      end
  end.

End Cli.

(** ** More vocabulary *)

(** A name without the characters that are special in a shell pattern:
    [*], [?] and the opening bracket. *)
Fixpoint plain (s : string) : bool :=
  match s with
  | EmptyString => true
  | String c s' =>
      negb (Ascii.eqb c "*"%char) && negb (Ascii.eqb c "?"%char)
      && negb (Ascii.eqb c "["%char) && plain s'
  end.

(** A string without the character [c]. *)
Fixpoint lacks (c : ascii) (s : string) : bool :=
  match s with
  | EmptyString => true
  | String d s' => negb (Ascii.eqb d c) && lacks c s'
  end.

(** A pattern no match of which consumes the character [c], with or
    without [re.IGNORECASE]. *)
Fixpoint avoids (c : ascii) (r : Re.regex) : bool :=
  match r with
  | Re.Chr p => negb (Ascii.eqb (Py.lower_char p) (Py.lower_char c))
  | Re.Dot => Ascii.eqb c Py.newline
  | Re.NotChr p => Ascii.eqb p c
  | Re.Dig => negb (Py.is_digit c)
  | Re.Spc => negb (Py.is_space c)
  | Re.Eol => true
  | Re.Eps => true
  | Re.Seq r1 r2 => avoids c r1 && avoids c r2
  | Re.Alt r1 r2 => avoids c r1 && avoids c r2
  | Re.Star r' => avoids c r'
  | Re.LazyStar r' => avoids c r'
  | Re.Group _ r' => avoids c r'
  end.

(** A pattern with a capturing group number [n]. *)
Fixpoint binds (n : nat) (r : Re.regex) : bool :=
  match r with
  | Re.Group m r' => Nat.eqb n m || binds n r'
  | Re.Seq r1 r2 | Re.Alt r1 r2 => binds n r1 || binds n r2
  | Re.Star r' | Re.LazyStar r' => binds n r'
  | _ => false
  end.


(** The captured groups are all single lines. *)
Definition line_caps (cs : Re.caps) : Prop :=
  forall n, is_line (Re.group n cs) = true.

Section MoreObservations.
Variable self : XcodeRemote.t.
Variable w : World.
Variable timeout : Z.

(** At loop test [j] the first loop sees the build start: a log is
    found, and it is new, or another one than at the beginning, or
    modified after [initial_time]. *)
Definition started (initial_log : option Fs.Path) (j : nat) : Prop :=
  XcodeRemote.in_time w timeout j = true
  /\ exists cur,
       XcodeRemote.get_latest_build_log self (w_fs_glob w j) = Some cur
       /\ (initial_log = None
           \/ initial_log <> Some cur
           \/ exists m, Fs.stat_mtime (Fs.root (w_fs_stat w j)) cur = Some m
                        /\ (m > w_initial_time w)%Z).

(** Between the loop tests [a] (included) and [b] (excluded) the second
    loop never saw another modification time than [m]: each test was in
    time, and found no log or a log with modification time [m]. *)
Definition steady (m : Z) (a b : nat) : Prop :=
  forall t, a <= t < b ->
    XcodeRemote.in_time w timeout t = true
    /\ (XcodeRemote.get_latest_build_log self (w_fs_glob w t) = None
        \/ sample self w timeout t = Some m).

(** The first loop performs loop test [j]: the tests before it all went
    round the loop. *)
Definition start_reaches (j : nat) : Prop :=
  turns (XcodeRemote.start_turn self w timeout
           (XcodeRemote.get_latest_build_log self (w_fs_initial w))) j 0 = Some j.

(** The first loop breaks at loop test [j]. *)
Definition start_breaks (j : nat) : Prop :=
  start_reaches j
  /\ fst (XcodeRemote.start_turn self w timeout
            (XcodeRemote.get_latest_build_log self (w_fs_initial w)) j)
     = Ret (Leave (Some (S j))).

(** The second loop, which the break at loop test [j0 - 1] has led to,
    is in state [s] after some turns: its next loop test is [test s]. *)
Definition poll_reaches (j0 : nat) (s : XcodeRemote.Poll) : Prop :=
  (exists j, j0 = S j /\ start_breaks j)
  /\ exists k, turns (XcodeRemote.poll_turn self w timeout) k (first_poll j0) = Some s.

(** The run of [wait_for_build_completion] is over at loop test [last],
    with the outcome [r]: the first loop finds the time up or raises at
    that test, or the second loop finds the time up, returns or raises
    at that test. *)
Definition ends_at (last : nat) (r : res (bool * bool)) : Prop :=
  (start_reaches last
   /\ let turn := fst (XcodeRemote.start_turn self w timeout
                         (XcodeRemote.get_latest_build_log self (w_fs_initial w))
                         last) in
      (turn = Ret (Leave None) /\ r = Ret (false, false))
      \/ exists e, turn = Raise e /\ r = Raise e)
  \/ exists j0 s,
       poll_reaches j0 s /\ XcodeRemote.test s = last
       /\ let turn := fst (XcodeRemote.poll_turn self w timeout s) in
          (turn = Ret (Leave None) /\ r = Ret (false, false))
          \/ (exists c, turn = Ret (Leave (Some c)) /\ r = Ret c)
          \/ exists e, turn = Raise e /\ r = Raise e.

(** What the second loop knows when its next test is [test s]: no other
    modification time than [last_modified s] was seen since loop test
    [a]; the last [stable_count s] sightings of it are behind; and
    unless it is still the initial 0, it was recorded just before [a]. *)
Definition poll_invariant (j0 : nat) (s : XcodeRemote.Poll) : Prop :=
  exists a,
    j0 <= a <= XcodeRemote.test s
    /\ steady (XcodeRemote.last_modified s) a (XcodeRemote.test s)
    /\ (XcodeRemote.last_modified s <> 0%Z ->
        exists t0, j0 <= t0 /\ a = S t0
                   /\ sample self w timeout t0 = Some (XcodeRemote.last_modified s))
    /\ (1 <= XcodeRemote.stable_count s ->
        exists t2, a <= t2 < XcodeRemote.test s
                   /\ sample self w timeout t2 = Some (XcodeRemote.last_modified s))
    /\ (2 <= XcodeRemote.stable_count s ->
        exists t1 t2, a <= t1 /\ t1 < t2 < XcodeRemote.test s
                      /\ sample self w timeout t1 = Some (XcodeRemote.last_modified s)
                      /\ sample self w timeout t2 = Some (XcodeRemote.last_modified s)).

End MoreObservations.

(** * Properties *)

Import XcodeRemote.

(** ** The monad *)

Lemma bind_ret_l {A B} (a : A) (f : A -> M B) : bind (ret a) f = f a.
Proof. unfold bind, ret. destruct (f a) as [r t]. reflexivity. Qed.

Lemma bind_emit {B} (e : event) (k : M B) :
  bind (emit e) (fun _ => k) = (fst k, e :: snd k).
Proof. unfold bind, emit. destruct k as [r t]. reflexivity. Qed.

(** ** [max] and [glob] *)

Section MaxBy.
Context {A : Type} (key : A -> Z).

Lemma max_by_in (l : list A) : forall best, Fs.max_by key best l ∈ best :: l.
Proof.
  induction l as [|x l IH]; intros best; simpl.
  - apply list_elem_of_here.
  - specialize (IH (if (key best <? key x)%Z then x else best)).
    apply elem_of_cons in IH as [-> | IH].
    + destruct (key best <? key x)%Z; set_solver.
    + set_solver.
Qed.

Lemma max_by_best (l : list A) : forall best, (key best <= key (Fs.max_by key best l))%Z.
Proof.
  induction l as [|x l IH]; intros best; simpl; [lia|].
  specialize (IH (if (key best <? key x)%Z then x else best)).
  destruct (Z.ltb_spec (key best) (key x)); lia.
Qed.

Lemma max_by_ge (l : list A) :
  forall best y, y ∈ best :: l -> (key y <= key (Fs.max_by key best l))%Z.
Proof.
  induction l as [|x l IH]; intros best y Hy; simpl.
  - apply list_elem_of_singleton in Hy as ->. lia.
  - apply elem_of_cons in Hy as [-> | Hy].
    + pose proof (max_by_best l (if (key best <? key x)%Z then x else best)) as H.
      destruct (Z.ltb_spec (key best) (key x)); lia.
    + apply elem_of_cons in Hy as [-> | Hy].
      * pose proof (max_by_best l (if (key best <? key x)%Z then x else best)) as H.
        destruct (Z.ltb_spec (key best) (key x)); lia.
      * apply IH. set_solver.
Qed.

End MaxBy.

Lemma find_entry_in name x es :
  (name, x) ∈ es -> exists y, Fs.find_entry name es = Some y.
Proof.
  induction es as [|[n z] es IH]; intros Hin; [by apply not_elem_of_nil in Hin|].
  simpl. destruct (String.eqb_spec n name) as [->|Hne]; [eauto|].
  apply elem_of_cons in Hin as [Heq | Hin]; [congruence | auto].
Qed.

Lemma lookup_snoc root d name :
  Fs.lookup root (d ++ [name]) =
  match Fs.lookup root d with
  | Some (Fs.Dir _ es) => Fs.find_entry name es
  | _ => None
  end.
Proof.
  revert root. induction d as [|c d IH]; intros root; simpl.
  - destruct root as [|t es]; [reflexivity|].
    destruct (Fs.find_entry name es); reflexivity.
  - destruct root as [|t es]; [reflexivity|].
    destruct (Fs.find_entry c es); [apply IH | reflexivity].
Qed.

(** A path that [glob] lists in a view of the file system can be
    [stat]ed in that view. *)
Lemma glob_stat root d pat p :
  p ∈ Fs.glob root d pat -> exists m, Fs.stat_mtime root p = Some m.
Proof.
  unfold Fs.glob, Fs.stat_mtime.
  destruct (Fs.lookup root d) as [[|t es]|] eqn:Hd; try (intros H; by apply not_elem_of_nil in H).
  intros Hin. apply list_elem_of_fmap in Hin as ([name x] & -> & Hin).
  apply list_elem_of_filter in Hin as [_ Hin].
  destruct (find_entry_in _ _ _ Hin) as [y Hy].
  simpl. rewrite lookup_snoc, Hd, Hy. eauto.
Qed.

Lemma mtime_key_stat fs d pat p :
  p ∈ Fs.glob (Fs.root fs) d pat ->
  Fs.stat_mtime (Fs.root fs) p = Some (mtime_key fs p).
Proof.
  intros Hin. destruct (glob_stat _ _ _ _ Hin) as [m Hm].
  unfold mtime_key. rewrite Hm. reflexivity.
Qed.

(** ** C10: the constructor *)

(** C10. Constructing an [XcodeRemote] raises [FileNotFoundError] if and
    only if the resolved project path does not exist; when it exists,
    construction succeeds, and the project name is the stem of the
    resolved path. *)
Theorem init_raises_iff_missing (fs : Fs.FS) (project_path : string) :
  (init fs project_path = Raise FileNotFoundError
   <-> Fs.exists_ (Fs.root fs) (Fs.resolve fs project_path) = false)
  /\ (Fs.exists_ (Fs.root fs) (Fs.resolve fs project_path) = true ->
      exists self,
        init fs project_path = Ret self
        /\ XcodeRemote.project_path self = Fs.resolve fs project_path
        /\ project_name self = Fs.stem (Fs.resolve fs project_path)).
Proof.
  unfold init.
  destruct (Fs.exists_ (Fs.root fs) (Fs.resolve fs project_path)); simpl; split.
  - split; discriminate.
  - intros _. eexists. repeat split.
  - split; reflexivity.
  - discriminate.
Qed.

(** ** C6: the newest build log *)


(** ** C8: [parse_build_log] is total *)

(** C8. For every log path, [parse_build_log] returns a dictionary whose
    keys are exactly ["errors"], ["warnings"] and ["notes"], each
    mapped to a list of strings; when the log cannot be read or
    decompressed, the three lists are empty. *)
Theorem parse_build_log_total (fs : Fs.FS) (log_path : Fs.Path) :
  exists d : gmap string (list string),
    parse_build_log fs log_path = (Ret d, [EvParse log_path])
    /\ dom d = ({["errors"; "warnings"; "notes"]} : gset string)
    /\ (Fs.read_gzip (Fs.root fs) log_path = None ->
        d !! "errors" = Some [] /\ d !! "warnings" = Some [] /\ d !! "notes" = Some []).
Proof.
  exists (to_dict (scan_log fs log_path)). split; [reflexivity|]. split.
  - unfold to_dict. rewrite !dom_insert_L, dom_empty_L. set_solver.
  - intros Hread. unfold scan_log. rewrite Hread. unfold to_dict, empty_result. simpl.
    rewrite elements_empty. repeat split.
Qed.

(** ** Lines and collections *)

Lemma take_len n s : Py.len (Py.take n s) <= n.
Proof.
  unfold Py.len. revert s.
  induction n as [|n IH]; intros [|c s]; simpl; try lia.
  specialize (IH s). lia.
Qed.

Ltac split_branches :=
  repeat match goal with
         | |- context [if ?b then _ else _] => destruct b eqn:?
         | |- context [match ?x with _ => _ end] => destruct x eqn:?
         end.

(** What a line contributes does not depend on what was collected
    before it. *)
Lemma process_line_entry (line : string) :
  exists e, forall r, process_line line r = add_entry e r.
Proof.
  unfold process_line, tagged_error, heuristic_error.
  split_branches;
    first [ by exists None
          | by eexists (Some (KError, _))
          | by eexists (Some (KWarning, _))
          | by eexists (Some (KNote, _)) ].
Qed.

(** ** C2: one entry per line, by precedence *)

(** C2. A line adds at most one entry to at most one of the three
    collections.  A line with the tag [error:] can only add an error;
    otherwise a line that matches a Swift or Objective-C heuristic can
    only add an error; otherwise a line with the tag [warning:] can only
    add a warning; otherwise a line with the tag [note:] can only add a
    note; any other line adds nothing. *)
Theorem process_line_precedence (line : string) (r : Result) :
  let r' := process_line line r in
  (r' = r \/ exists msg, r' = add_error msg r \/ r' = add_warning msg r \/ r' = add_note msg r)
  /\ (has_tag "error:" line = true ->
      warnings r' = warnings r /\ notes r' = notes r)
  /\ (has_tag "error:" line = false -> heuristic line = true ->
      warnings r' = warnings r /\ notes r' = notes r)
  /\ (has_tag "error:" line = false -> heuristic line = false ->
      has_tag "warning:" line = true ->
      errors r' = errors r /\ notes r' = notes r)
  /\ (has_tag "error:" line = false -> heuristic line = false ->
      has_tag "warning:" line = false -> has_tag "note:" line = true ->
      errors r' = errors r /\ warnings r' = warnings r)
  /\ (has_tag "error:" line = false -> heuristic line = false ->
      has_tag "warning:" line = false -> has_tag "note:" line = false ->
      r' = r).
Proof.
  cbv zeta. split.
  { destruct (process_line_entry line) as [[[[| |] msg]|] He]; rewrite He; simpl; eauto 6. }
  repeat split; intros;
    unfold heuristic, process_line, tagged_error, heuristic_error in *;
    repeat match goal with
           | H : has_tag _ _ = _ |- _ => rewrite H; clear H
           end;
    destruct (located Pat.swift_ext line), (any_phrase Pat.swift_phrases line),
      (located Pat.objc_ext line), (any_phrase Pat.objc_phrases line);
    cbn [andb orb] in *; try discriminate;
    split_branches; reflexivity.
Qed.

(** ** The matcher is sound

    Whatever [Re.run] finds is a match in the sense of [Re.matches], so
    that the groups of a match have the shape the pattern gives them. *)

Module ReFacts.
Import Re.

Lemma run_sound ic r : forall s cs k res,
  run ic r s cs k = Some res ->
  exists s' cs', matches ic r s cs s' cs' /\ k s' cs' = Some res.
Proof.
  induction r as [p| |p| | | | |r1 IH1 r2 IH2|r1 IH1 r2 IH2|r IH|r IH|n r IH];
    intros s cs k res H; cbn [run] in H.
  - destruct s as [|c s]; [discriminate|]. simpl in H.
    destruct (chr_eq ic p c) eqn:E; [|discriminate]. eauto using matches.
  - destruct s as [|c s]; [discriminate|]. simpl in H.
    destruct (Ascii.eqb c Py.newline) eqn:E; [discriminate|]. eauto using matches.
  - destruct s as [|c s]; [discriminate|]. simpl in H.
    destruct (chr_eq ic p c) eqn:E; [discriminate|]. eauto using matches.
  - destruct s as [|c s]; [discriminate|]. simpl in H.
    destruct (Py.is_digit c) eqn:E; [|discriminate]. eauto using matches.
  - destruct s as [|c s]; [discriminate|]. simpl in H.
    destruct (Py.is_space c) eqn:E; [|discriminate]. eauto using matches.
  - destruct s as [|c [|d s]]; try discriminate.
    + exists EmptyString, cs. split; [constructor; auto | exact H].
    + destruct (Ascii.eqb_spec c Py.newline) as [->|]; [|discriminate].
      eexists _, cs. split; [constructor; auto | exact H].
  - eauto using matches.
  - apply IH1 in H as (s1 & cs1 & M1 & H). apply IH2 in H as (s2 & cs2 & M2 & H).
    eauto using matches.
  - destruct (run ic r1 s cs k) eqn:E.
    + injection H as <-. apply IH1 in E as (s' & cs' & M & E). eauto using matches.
    + apply IH2 in H as (s' & cs' & M & H). eauto using matches.
  - revert H. generalize (S (Py.len s)). intros fuel. revert s cs.
    induction fuel as [|fuel IHf]; intros s cs H; simpl in H; [eauto using matches|].
    match type of H with
    | match ?x with _ => _ end = _ => destruct x eqn:E
    end.
    + injection H as <-. apply IH in E as (s1 & cs1 & M1 & E).
      destruct (Py.len s1 <? Py.len s); [|discriminate].
      apply IHf in E as (s2 & cs2 & M2 & E). eauto using matches.
    + eauto using matches.
  - revert H. generalize (S (Py.len s)). intros fuel. revert s cs.
    induction fuel as [|fuel IHf]; intros s cs H; simpl in H; [eauto using matches|].
    destruct (k s cs) eqn:E.
    + injection H as <-. eauto using matches.
    + apply IH in H as (s1 & cs1 & M1 & H).
      destruct (Py.len s1 <? Py.len s); [|discriminate].
      apply IHf in H as (s2 & cs2 & M2 & H). eauto using matches.
  - apply IH in H as (s' & cs' & M & H). eauto using matches.
Qed.

Lemma search_sound ic r : forall s m rest,
  search ic r s = Some (m, rest) ->
  exists skipped from, s = skipped +:+ from /\ matches ic r from [] rest m.
Proof.
  induction s as [|c s IH]; intros m rest H; simpl in H.
  - destruct (match_here ic r "") as [res|] eqn:E; [|discriminate].
    injection H as ->. apply run_sound in E as (s' & cs' & M & [= <- <-]).
    exists "", "". by split.
  - destruct (match_here ic r (String c s)) as [res|] eqn:E.
    + injection H as ->. apply run_sound in E as (s' & cs' & M & [= <- <-]).
      exists "", (String c s). by split.
    + apply IH in H as (skipped & from & -> & M).
      exists (String c skipped), from. by split.
Qed.

Lemma take_app p s : Py.take (String.length p) (p +:+ s) = p.
Proof. induction p as [|c p IH]; simpl; [by destruct s | by rewrite IH]. Qed.

Lemma length_app p s : String.length (p +:+ s) = String.length p + String.length s.
Proof. induction p as [|c p IH]; simpl; [reflexivity | by rewrite IH]. Qed.

Lemma consumed_app p s : consumed (p +:+ s) s = p.
Proof.
  unfold consumed, Py.len. rewrite length_app.
  replace (String.length p + String.length s - String.length s) with (String.length p) by lia.
  apply take_app.
Qed.

Lemma star_digits ic : forall s cs s' cs',
  matches ic (Star Dig) s cs s' cs' ->
  cs' = cs /\ exists d, s = d +:+ s' /\ all_chars Py.is_digit d = true.
Proof.
  intros s cs s' cs' H. remember (Star Dig) as q eqn:Hq.
  induction H; try discriminate.
  - split; [reflexivity|]. by exists "".
  - injection Hq as ->. destruct (IHmatches2 eq_refl) as (-> & d & -> & Hd).
    inversion H; subst. split; [reflexivity|].
    eexists (String _ d). split; [reflexivity|]. simpl.
    match goal with Hc : Py.is_digit _ = true |- _ => by rewrite Hc end.
Qed.

Lemma group_number ic n s cs s' cs' :
  matches ic (Group n (Plus Dig)) s cs s' cs' ->
  exists d, cs' = (n, d) :: cs /\ is_number d = true.
Proof.
  intros H. inversion H as [| | | | | | | | | | | | | |? ? ? ? ? ? Hin]; subst.
  inversion Hin as [| | | | | | |? ? ? ? ? ? ? ? H1 H2| | | | | | |]; subst.
  apply star_digits in H2 as (-> & d & -> & Hd). inversion H1; subst.
  match goal with
  | Hc : Py.is_digit ?c = true |- _ =>
      exists (String c d); split;
      [do 2 f_equal; exact (consumed_app (String c d) s') | simpl; by rewrite Hc]
  end.
Qed.

Lemma groupless_keeps_caps ic r s cs s' cs' :
  matches ic r s cs s' cs' -> groupless r = true -> cs' = cs.
Proof.
  induction 1; simpl; intros Hg; try reflexivity;
    try (apply andb_prop in Hg as [Hg1 Hg2]); try discriminate; auto.
  - rewrite IHmatches2, IHmatches1; auto.
  - rewrite IHmatches2, IHmatches1; auto.
  - rewrite IHmatches2, IHmatches1; auto.
Qed.

Lemma append_assoc (a b c : string) : (a +:+ b) +:+ c = a +:+ (b +:+ c).
Proof.
  induction a as [|x a IH]; [reflexivity|].
  change (String x ((a +:+ b) +:+ c) = String x (a +:+ (b +:+ c))).
  by rewrite IH.
Qed.

Lemma matches_suffix ic r s cs s' cs' :
  matches ic r s cs s' cs' -> exists p, s = p +:+ s'.
Proof.
  induction 1;
    try (by eexists (String _ ""));
    try (by exists "");
    try done.
  - destruct IHmatches1 as [p1 ->], IHmatches2 as [p2 ->].
    exists (p1 +:+ p2). by rewrite append_assoc.
  - destruct IHmatches1 as [p1 ->], IHmatches2 as [p2 ->].
    exists (p1 +:+ p2). by rewrite append_assoc.
  - destruct IHmatches1 as [p1 ->], IHmatches2 as [p2 ->].
    exists (p1 +:+ p2). by rewrite append_assoc.
Qed.

Lemma diagnostic_path ext line m rest :
  search false (Pat.diagnostic ext) line = Some (m, rest) ->
  exists p, group 1 m = String "/" p.
Proof.
  intros H. apply search_sound in H as (skipped & from & _ & M).
  unfold Pat.diagnostic in M. cbn [seq] in M.
  inversion M as [| | | | | | |? ? ? ? ? ? ? ? M1 M2| | | | | | |]; subst. clear M.
  assert (Hg : exists p c, cs1 = (1, String "/" p) :: c) .
  { inversion M1 as [| | | | | | | | | | | | | |? ? ? ? ? ? Hin]; subst.
    inversion Hin as [| | | | | | |? ? ? ? ? ? ? ? H1 H2| | | | | | |]; subst.
    inversion H1 as [? c ? ? Hc| | | | | | | | | | | | | |]; subst.
    apply Ascii.eqb_eq in Hc as <-.
    pose proof (matches_suffix _ _ _ _ _ _ H2) as [p ->].
    exists p. eexists. do 2 f_equal. exact (consumed_app (String "/" p) s1). }
  destruct Hg as (p & c & ->). exists p.
  repeat match goal with
         | H : matches _ (Seq _ _) _ _ _ _ |- _ => inversion H; subst; clear H
         end.
  repeat match goal with
         | H : matches _ (Group _ (Plus Dig)) _ _ _ _ |- _ =>
             apply group_number in H as (? & -> & ?)
         | H : matches _ (Chr _) _ _ _ _ |- _ =>
             apply groupless_keeps_caps in H as ->; [|reflexivity]
         | H : matches _ (Plus Spc) _ _ _ _ |- _ =>
             apply groupless_keeps_caps in H as ->; [|reflexivity]
         | H : matches _ Eps _ _ _ _ |- _ =>
             apply groupless_keeps_caps in H as ->; [|reflexivity]
         | H : matches _ (Group 4 _) _ _ _ _ |- _ => inversion H; subst; clear H
         | H : matches _ (Plus Dot) _ _ _ _ |- _ =>
             apply groupless_keeps_caps in H as ->; [|reflexivity]
         end.
  reflexivity.
Qed.

Lemma diagnostic_groups ext line m rest :
  search false (Pat.diagnostic ext) line = Some (m, rest) ->
  is_number (group 2 m) = true /\ is_number (group 3 m) = true.
Proof.
  intros H. apply search_sound in H as (skipped & from & _ & M).
  unfold Pat.diagnostic in M. cbn [seq] in M.
  repeat match goal with
         | H : matches _ (Seq _ _) _ _ _ _ |- _ => inversion H; subst; clear H
         end.
  repeat match goal with
         | H : matches _ (Group _ (Plus Dig)) _ _ _ _ |- _ =>
             apply group_number in H as (? & -> & ?)
         | H : matches _ (Chr _) _ _ _ _ |- _ =>
             apply groupless_keeps_caps in H as ->; [|reflexivity]
         | H : matches _ (Plus Spc) _ _ _ _ |- _ =>
             apply groupless_keeps_caps in H as ->; [|reflexivity]
         | H : matches _ Eps _ _ _ _ |- _ =>
             apply groupless_keeps_caps in H as ->; [|reflexivity]
         | H : matches _ (Group 4 _) _ _ _ _ |- _ => inversion H; subst; clear H
         | H : matches _ (Plus Dot) _ _ _ _ |- _ =>
             apply groupless_keeps_caps in H as ->; [|reflexivity]
         end.
  simpl. auto.
Qed.

End ReFacts.

(** ** C9: the heuristic branches are bounded *)

Lemma located_short ext line : located ext line = true -> Py.len line < 1000.
Proof.
  unfold located. intros H. apply andb_prop in H as [H _].
  apply Nat.ltb_lt in H. exact H.
Qed.

Lemma heuristic_error_shape ext line r e :
  e ∈ errors (heuristic_error ext line r) -> e ∉ errors r ->
  exists m rest,
    Re.search false (Pat.diagnostic ext) line = Some (m, rest)
    /\ e = diagnostic_entry (Re.group 1 m) (Re.group 2 m) (Re.group 3 m)
             (Py.take 200 (Py.strip (Re.group 4 m))).
Proof.
  unfold heuristic_error.
  destruct (Re.search false (Pat.diagnostic ext) line) as [[m rest]|]; [|done].
  simpl. intros Hin Hnot. exists m, rest. split; [reflexivity|].
  apply elem_of_union in Hin as [Hin | Hin]; [|done].
  apply elem_of_singleton in Hin. exact Hin.
Qed.

(** C9. On a line without the tag [error:], an error is only produced
    when the line is shorter than 1000 characters and matches a Swift
    or Objective-C heuristic; the error string is then
    [file:line:column message], where [file] starts with a slash,
    [line] and [column] are numbers and [message] is cut to at most 200
    characters. *)
Theorem heuristic_error_bounded (line : string) (r : Result) (e : string) :
  has_tag "error:" line = false ->
  e ∈ errors (process_line line r) -> e ∉ errors r ->
  Py.len line < 1000
  /\ heuristic line = true
  /\ exists ext m rest message,
       (ext = Pat.swift_ext \/ ext = Pat.objc_ext)
       /\ Re.search false (Pat.diagnostic ext) line = Some (m, rest)
       /\ (exists p, Re.group 1 m = String "/" p)
       /\ is_number (Re.group 2 m) = true
       /\ is_number (Re.group 3 m) = true
       /\ message = Py.take 200 (Py.strip (Re.group 4 m))
       /\ Py.len message <= 200
       /\ e = diagnostic_entry (Re.group 1 m) (Re.group 2 m) (Re.group 3 m) message.
Proof.
  intros Herr Hin Hnot. unfold process_line in Hin. rewrite Herr in Hin.
  unfold heuristic.
  destruct (located Pat.swift_ext line) eqn:Hswift.
  - destruct (any_phrase Pat.swift_phrases line) eqn:Hsp; [|done].
    destruct (heuristic_error_shape _ _ _ _ Hin Hnot) as (m & rest & Hm & He).
    split; [by eapply located_short|]. split; [reflexivity|].
    exists Pat.swift_ext, m, rest, (Py.take 200 (Py.strip (Re.group 4 m))).
    destruct (ReFacts.diagnostic_groups _ _ _ _ Hm) as [Hl Hc].
    repeat split; eauto using take_len, ReFacts.diagnostic_path.
  - destruct (located Pat.objc_ext line) eqn:Hobjc.
    + destruct (any_phrase Pat.objc_phrases line) eqn:Hop; [|done].
      destruct (heuristic_error_shape _ _ _ _ Hin Hnot) as (m & rest & Hm & He).
      split; [by eapply located_short|]. split; [reflexivity|].
      exists Pat.objc_ext, m, rest, (Py.take 200 (Py.strip (Re.group 4 m))).
      destruct (ReFacts.diagnostic_groups _ _ _ _ Hm) as [Hl Hc].
      repeat split; eauto using take_len, ReFacts.diagnostic_path.
    + destruct (has_tag "warning:" line).
      * destruct (Re.search true Pat.file_warning line) as [[m rest]|]; done.
      * destruct (has_tag "note:" line); [|done].
        destruct (Re.search true Pat.note line) as [[m rest]|]; done.
Qed.

(** ** C5: lines with the tag [warning:] *)

(** C5, as amended.  A line with the tag [warning:], without the tag
    [error:] and matching no Swift or Objective-C heuristic, becomes a
    warning only when it has no Swift or Objective-C source location of
    the heuristic branches and matches the located-warning pattern; the
    entry is then [path:message].  Otherwise the line adds nothing. *)
Theorem warning_line_classified (line : string) (r : Result) :
  has_tag "warning:" line = true ->
  has_tag "error:" line = false ->
  heuristic line = false ->
  process_line line r =
  if located Pat.swift_ext line || located Pat.objc_ext line then r
  else match Re.search true Pat.file_warning line with
       | Some (m, _) =>
           add_warning (Re.group 1 m +:+ ":" +:+ Py.strip (Re.group 2 m)) r
       | None => r
       end.
Proof.
  intros Hwarn Herr Hheur. unfold process_line, heuristic in *.
  rewrite Herr, Hwarn.
  destruct (located Pat.swift_ext line), (any_phrase Pat.swift_phrases line),
    (located Pat.objc_ext line), (any_phrase Pat.objc_phrases line);
    cbn [andb orb] in *; try discriminate; reflexivity.
Qed.

(** ** C3: the collections are sets of formatted messages *)

Lemma field_add_entry k e r :
  field k (add_entry e r) = field k r ∪ field k (add_entry e empty_result).
Proof.
  destruct e as [[[| |] msg]|], k; simpl; set_solver.
Qed.

Lemma field_process_line k line r :
  field k (process_line line r) = field k r ∪ field k (process_line line empty_result).
Proof.
  destruct (process_line_entry line) as [e He]. rewrite !He. apply field_add_entry.
Qed.

(** An entry is collected exactly when some line of the log yields it. *)
Lemma field_process_lines k lines : forall r msg,
  msg ∈ field k (process_lines lines r) <->
  msg ∈ field k r \/ exists line, line ∈ lines /\ msg ∈ field k (process_line line empty_result).
Proof.
  unfold process_lines.
  induction lines as [|x lines IH]; intros r msg; simpl.
  - split; [auto|]. intros [H | (line & Hin & _)]; [exact H|].
    by apply not_elem_of_nil in Hin.
  - rewrite IH, field_process_line, elem_of_union. split.
    + intros [[H | H] | (line & Hin & H)]; [auto | right | right].
      * exists x. split; [apply list_elem_of_here | exact H].
      * exists line. split; [by apply list_elem_of_further | exact H].
    + intros [H | (line & Hin & H)]; [auto|].
      apply elem_of_cons in Hin as [-> | Hin]; [auto|].
      right. eauto.
Qed.

Lemma process_lines_same_lines k l1 l2 :
  (forall line, line ∈ l1 <-> line ∈ l2) ->
  field k (process_lines l1 empty_result) = field k (process_lines l2 empty_result).
Proof.
  intros Hsame. apply set_eq. intros msg. rewrite !field_process_lines.
  split; (intros [H | (line & Hin & H)]; [auto|]; right; exists line;
          split; [by apply Hsame | exact H]).
Qed.

Lemma to_dict_lookup r key l :
  to_dict r !! key = Some l -> exists k, key = key_of k /\ l = elements (field k r).
Proof.
  unfold to_dict. intros H.
  destruct (decide (key = "errors")) as [->|Herr].
  { rewrite lookup_insert_eq in H. exists KError. by injection H as <-. }
  rewrite lookup_insert_ne in H by done.
  destruct (decide (key = "warnings")) as [->|Hwarn].
  { rewrite lookup_insert_eq in H. exists KWarning. by injection H as <-. }
  rewrite lookup_insert_ne in H by done.
  destruct (decide (key = "notes")) as [->|Hnote].
  { rewrite lookup_insert_eq in H. exists KNote. by injection H as <-. }
  rewrite lookup_insert_ne in H by done. by rewrite lookup_empty in H.
Qed.

Lemma key_of_inj k1 k2 : key_of k1 = key_of k2 -> k1 = k2.
Proof. destruct k1, k2; simpl; intros H; try reflexivity; discriminate. Qed.

Lemma split_line_cons f rest :
  is_line f = true ->
  Py.split Py.newline (f +:+ String Py.newline rest) = f :: Py.split Py.newline rest.
Proof.
  induction f as [|c f IH]; simpl; intros H.
  - reflexivity.
  - apply andb_prop in H as [Hc Hf].
    change (Ascii.eqb c "010") with (Ascii.eqb c Py.newline).
    destruct (Ascii.eqb c Py.newline); [discriminate|].
    rewrite (IH Hf). reflexivity.
Qed.

Lemma split_line f : is_line f = true -> Py.split Py.newline f = [f].
Proof.
  induction f as [|c f IH]; simpl; intros H; [reflexivity|].
  apply andb_prop in H as [Hc Hf].
  change (Ascii.eqb c "010") with (Ascii.eqb c Py.newline).
  destruct (Ascii.eqb c Py.newline); [discriminate|].
  rewrite (IH Hf). reflexivity.
Qed.

(** Splitting at newlines undoes joining with newlines. *)
Lemma split_join lines :
  lines <> [] -> Forall (fun l => is_line l = true) lines ->
  Py.split Py.newline (Py.join Py.newline lines) = lines.
Proof.
  induction lines as [|f [|g lines] IH]; intros Hne Hall; [done| |].
  - simpl. apply split_line. by inversion Hall.
  - inversion Hall as [|? ? Hf Hrest]; subst.
    change (Py.join Py.newline (f :: g :: lines))
      with (f +:+ String Py.newline (Py.join Py.newline (g :: lines))).
    rewrite split_line_cons by exact Hf. f_equal. apply IH; [done | exact Hrest].
Qed.

(** C3. The three returned lists have no duplicates; two logs with the
    same lines, whatever their order and however often each occurs,
    give the same three collections up to the order of the lists; in
    particular a log in which a line occurs twice gives the same
    collections as the log in which it occurs once. *)
Theorem parse_build_log_dedup :
  (forall fs p d key l,
     fst (parse_build_log fs p) = Ret d -> d !! key = Some l -> NoDup l)
  /\ (forall fs1 p1 c1 fs2 p2 c2 d1 d2 key l1 l2,
        Fs.read_gzip (Fs.root fs1) p1 = Some c1 ->
        Fs.read_gzip (Fs.root fs2) p2 = Some c2 ->
        (forall line, line ∈ Py.split Py.newline c1 <-> line ∈ Py.split Py.newline c2) ->
        fst (parse_build_log fs1 p1) = Ret d1 ->
        fst (parse_build_log fs2 p2) = Ret d2 ->
        d1 !! key = Some l1 -> d2 !! key = Some l2 ->
        l1 ≡ₚ l2)
  /\ (forall fs1 p1 fs2 p2 pre mid post line d1 d2 key l1 l2,
        Forall (fun l => is_line l = true) (pre ++ line :: mid ++ post) ->
        Fs.read_gzip (Fs.root fs1) p1
          = Some (Py.join Py.newline (pre ++ line :: mid ++ line :: post)) ->
        Fs.read_gzip (Fs.root fs2) p2
          = Some (Py.join Py.newline (pre ++ line :: mid ++ post)) ->
        fst (parse_build_log fs1 p1) = Ret d1 ->
        fst (parse_build_log fs2 p2) = Ret d2 ->
        d1 !! key = Some l1 -> d2 !! key = Some l2 ->
        l1 ≡ₚ l2).
Proof.
  assert (Hsame : forall fs1 p1 c1 fs2 p2 c2 d1 d2 key l1 l2,
        Fs.read_gzip (Fs.root fs1) p1 = Some c1 ->
        Fs.read_gzip (Fs.root fs2) p2 = Some c2 ->
        (forall line, line ∈ Py.split Py.newline c1 <-> line ∈ Py.split Py.newline c2) ->
        fst (parse_build_log fs1 p1) = Ret d1 ->
        fst (parse_build_log fs2 p2) = Ret d2 ->
        d1 !! key = Some l1 -> d2 !! key = Some l2 ->
        l1 ≡ₚ l2).
  { intros fs1 p1 c1 fs2 p2 c2 d1 d2 key l1 l2 Hr1 Hr2 Hlines [= <-] [= <-] H1 H2.
    apply to_dict_lookup in H1 as (k1 & -> & ->).
    apply to_dict_lookup in H2 as (k2 & Hk & ->).
    apply key_of_inj in Hk as <-.
    unfold scan_log. rewrite Hr1, Hr2.
    rewrite (process_lines_same_lines k1 _ _ Hlines). reflexivity. }
  split; [|split; [exact Hsame|]].
  - intros fs p d key l [= <-] Hl.
    apply to_dict_lookup in Hl as (k & -> & ->). apply NoDup_elements.
  - intros fs1 p1 fs2 p2 pre mid post line d1 d2 key l1 l2 Hall Hr1 Hr2.
    apply (Hsame fs1 p1 _ fs2 p2 _ d1 d2 key l1 l2 Hr1 Hr2).
    assert (Hall2 : Forall (fun l => is_line l = true) (pre ++ line :: mid ++ line :: post)).
    { rewrite !Forall_app, !Forall_cons, !Forall_app in *. naive_solver. }
    intros x. rewrite !split_join; try done; [set_solver | |];
      by destruct pre.
Qed.

(** ** Loops *)

Lemma fst_bind {A B} (m : M A) (f : A -> M B) :
  fst (bind m f) =
  match fst m with
  | Ret a => fst (f a)
  | Raise e => Raise e
  | OutOfFuel => OutOfFuel
  end.
Proof. destruct m as [[a|e|] t]; simpl; [destruct (f a)|..]; reflexivity. Qed.

Lemma snd_bind {A B} (m : M A) (f : A -> M B) :
  snd (bind m f) =
  snd m ++ match fst m with
           | Ret a => snd (f a)
           | _ => []
           end.
Proof.
  destruct m as [[a|e|] t]; simpl; [destruct (f a)|..]; simpl;
    rewrite ?app_nil_r; reflexivity.
Qed.

Section While.
Context {S R : Type} (body : S -> M (turn S R)).

Lemma while_step fuel s :
  fst (while (Datatypes.S fuel) body s) =
  match fst (body s) with
  | Ret (Continue s') => fst (while fuel body s')
  | Ret (Leave r) => Ret r
  | Raise e => Raise e
  | OutOfFuel => OutOfFuel
  end.
Proof.
  simpl. rewrite fst_bind. destruct (fst (body s)) as [[s'|r]|e|]; reflexivity.
Qed.

(** More fuel does not change the result of a loop that ended. *)
Lemma while_mono fuel : forall s r fuel',
  fst (while fuel body s) = Ret r -> fuel <= fuel' ->
  fst (while fuel' body s) = Ret r.
Proof.
  induction fuel as [|fuel IH]; intros s r fuel' Hr Hle; [discriminate|].
  destruct fuel' as [|fuel']; [lia|].
  rewrite while_step in *.
  destruct (fst (body s)) as [[s'|r']|e|]; try done.
  apply IH; [exact Hr | lia].
Qed.

Lemma while_turns n : forall s s' fuel,
  turns body n s = Some s' ->
  fst (while (n + fuel) body s) = fst (while fuel body s').
Proof.
  induction n as [|n IH]; intros s s' fuel Hn; simpl in Hn.
  - by injection Hn as ->.
  - change (Datatypes.S n + fuel) with (Datatypes.S (n + fuel)).
    rewrite while_step.
    destruct (fst (body s)) as [[s1|r]|e|]; try done.
    by apply IH.
Qed.

Lemma turns_add n k : forall s s' s'',
  turns body n s = Some s' -> turns body k s' = Some s'' ->
  turns body (n + k) s = Some s''.
Proof.
  induction n as [|n IH]; intros s s' s'' Hn Hk; simpl in *.
  - by injection Hn as ->.
  - destruct (fst (body s)) as [[s1|r]|e|]; try done. eauto.
Qed.

End While.

(** ** C4: no log before the timeout *)

Section WaitProperties.
Variable self : t.
Variable w : World.
Variable timeout : Z.

Lemma bind_latest {B} (fs : Fs.FS) (f : option Fs.Path -> M B) :
  bind (latest self fs) f
  = (fst (f (get_latest_build_log self fs)),
     EvLatestLog :: snd (f (get_latest_build_log self fs))).
Proof.
  unfold latest, bind, emit, ret. simpl.
  destruct (f (get_latest_build_log self fs)); reflexivity.
Qed.

Lemma start_turn_timeout initial_log j :
  in_time w timeout j = false ->
  start_turn self w timeout initial_log j = (Ret (Leave None), []).
Proof. unfold start_turn. by intros ->. Qed.

Lemma start_turn_waits initial_log j :
  in_time w timeout j = true ->
  no_new_log self w initial_log j ->
  start_turn self w timeout initial_log j
  = (Ret (Continue (Datatypes.S j)), [EvLatestLog; EvSleep 1]).
Proof.
  unfold start_turn, no_new_log. intros -> Hno. rewrite bind_latest.
  destruct (get_latest_build_log self (w_fs_glob w j)) as [cur|]; [|reflexivity].
  destruct Hno as (-> & m & Hm & Hle).
  unfold path_eqb, stat. rewrite bool_decide_eq_true_2, Hm by reflexivity.
  simpl. destruct (Z.gtb_spec m (w_initial_time w)); [lia | reflexivity].
Qed.

Lemma start_loop_times_out initial_log k : forall j fuel,
  (forall i, j <= i < j + k ->
     in_time w timeout i = true /\ no_new_log self w initial_log i) ->
  in_time w timeout (j + k) = false ->
  k < fuel ->
  fst (while fuel (start_turn self w timeout initial_log) j) = Ret None.
Proof.
  induction k as [|k IH]; intros j fuel Hquiet Hout Hfuel;
    (destruct fuel as [|fuel]; [lia|]); rewrite while_step.
  - rewrite Nat.add_0_r in Hout. by rewrite start_turn_timeout.
  - destruct (Hquiet j) as [Hin Hno]; [lia|].
    rewrite start_turn_waits by done. simpl.
    apply IH; [| |lia].
    + intros i Hi. apply Hquiet. lia.
    + by replace (Datatypes.S j + k) with (j + Datatypes.S k) by lia.
Qed.

(** C4. When, at every loop test before the timeout elapses, no build
    log has appeared and the existing one has not been modified, and
    the timeout elapses at loop test [n], then
    [wait_for_build_completion] returns [(False, False)]. *)
Theorem wait_reports_no_completion (n : nat) :
  (forall j, j < n ->
     in_time w timeout j = true
     /\ no_new_log self w (get_latest_build_log self (w_fs_initial w)) j) ->
  in_time w timeout n = false ->
  forall fuel, n < fuel ->
    fst (wait_for_build_completion self w timeout fuel) = Ret (false, false).
Proof.
  intros Hquiet Hout fuel Hfuel.
  unfold wait_for_build_completion.
  rewrite bind_latest. cbn [fst]. rewrite fst_bind.
  rewrite (start_loop_times_out _ n 0 fuel); [reflexivity | | done | done].
  intros i Hi. apply Hquiet. lia.
Qed.

End WaitProperties.

(** ** C1: completion when the log is stable *)

Lemma getitem_errors r : getitem (to_dict r) "errors" = ret (elements (errors r)).
Proof. unfold getitem, to_dict. by rewrite lookup_insert_eq. Qed.

Lemma getitem_warnings r :
  getitem (to_dict r) "warnings" = ret (elements (warnings r)).
Proof.
  unfold getitem, to_dict.
  rewrite lookup_insert_ne by done. by rewrite lookup_insert_eq.
Qed.

Section StableCompletion.
Variable self : t.
Variable w : World.
Variable timeout : Z.

Local Abbreviation poll := (poll_turn self w timeout).

Lemma poll_turn_timeout s :
  in_time w timeout (test s) = false -> poll s = (Ret (Leave None), []).
Proof. unfold poll_turn. by intros ->. Qed.

Lemma sample_inv j m :
  sample self w timeout j = Some m ->
  in_time w timeout j = true
  /\ exists cur, get_latest_build_log self (w_fs_glob w j) = Some cur
                 /\ Fs.stat_mtime (Fs.root (w_fs_stat w j)) cur = Some m.
Proof.
  unfold sample. destruct (in_time w timeout j); [|done].
  destruct (get_latest_build_log self (w_fs_glob w j)) as [cur|]; [|done].
  eauto.
Qed.

(** An unchanged sample that does not yet complete the count. *)
Lemma poll_turn_stable s :
  sample self w timeout (test s) = Some (last_modified s) ->
  stable_count s + 1 < 3 ->
  poll s = (Ret (Continue {| last_modified := last_modified s;
                             stable_count := stable_count s + 1;
                             test := Datatypes.S (test s) |}),
            [EvLatestLog; EvSleep 1]).
Proof.
  intros Hs Hlt. apply sample_inv in Hs as (Hin & cur & Hcur & Hm).
  unfold poll_turn. rewrite Hin, bind_latest, Hcur. unfold stat. rewrite Hm.
  cbn [bind ret fst snd app]. rewrite Z.eqb_refl.
  destruct (Nat.leb_spec 3 (stable_count s + 1)); [lia | reflexivity].
Qed.

(** The unchanged sample that completes the count. *)
Lemma poll_turn_done s :
  sample self w timeout (test s) = Some (last_modified s) ->
  3 <= stable_count s + 1 ->
  exists cur success,
    poll s = (Ret (Leave (Some (true, success))), [EvLatestLog; EvParse cur]).
Proof.
  intros Hs Hge. apply sample_inv in Hs as (Hin & cur & Hcur & Hm).
  exists cur, (length (elements (errors (scan_log (w_fs_read w (test s)) cur))) =? 0).
  unfold poll_turn. rewrite Hin, bind_latest, Hcur. unfold stat. rewrite Hm.
  cbn [bind ret fst snd app]. rewrite Z.eqb_refl.
  destruct (Nat.leb_spec 3 (stable_count s + 1)); [|lia].
  unfold parse_build_log. cbn [bind emit ret fst snd app].
  rewrite getitem_errors. reflexivity.
Qed.

(** Three unchanged samples in a row end the loop, at the sample where
    the count of unchanged samples reaches 3. *)
Lemma three_stable_samples s :
  (forall i, i < 3 -> sample self w timeout (test s + i) = Some (last_modified s)) ->
  exists success s',
    turns poll (2 - stable_count s) s = Some s'
    /\ test s' = test s + (2 - stable_count s)
    /\ fst (poll s') = Ret (Leave (Some (true, success))).
Proof.
  intros Hs.
  pose proof (Hs 0 ltac:(lia)) as H0. rewrite Nat.add_0_r in H0.
  pose proof (Hs 1 ltac:(lia)) as H1.
  pose proof (Hs 2 ltac:(lia)) as H2.
  destruct s as [lm sc j]. cbn [test last_modified stable_count] in *.
  assert (H1' : sample self w timeout (Datatypes.S j) = Some lm)
    by (by replace (Datatypes.S j) with (j + 1) by lia).
  assert (H2' : sample self w timeout (Datatypes.S (Datatypes.S j)) = Some lm)
    by (by replace (Datatypes.S (Datatypes.S j)) with (j + 2) by lia).
  destruct sc as [|[|sc]]; cbn [Nat.sub turns].
  - rewrite (poll_turn_stable (Build_Poll lm 0 j)) by (simpl; first [done | lia]).
    cbn [fst last_modified stable_count test].
    rewrite (poll_turn_stable (Build_Poll lm (0 + 1) (Datatypes.S j)))
      by (simpl; first [done | lia]).
    cbn [fst last_modified stable_count test].
    destruct (poll_turn_done (Build_Poll lm (0 + 1 + 1) (Datatypes.S (Datatypes.S j))))
      as (cur & success & Hdone); [done | simpl; lia |].
    eexists success, _. split; [reflexivity|].
    split; [simpl; lia | by rewrite Hdone].
  - rewrite (poll_turn_stable (Build_Poll lm 1 j)) by (simpl; first [done | lia]).
    cbn [fst last_modified stable_count test].
    destruct (poll_turn_done (Build_Poll lm (1 + 1) (Datatypes.S j)))
      as (cur & success & Hdone); [done | simpl; lia |].
    eexists success, _. split; [reflexivity|].
    split; [simpl; lia | by rewrite Hdone].
  - destruct (poll_turn_done (Build_Poll lm (Datatypes.S (Datatypes.S sc)) j))
      as (cur & success & Hdone); [done | simpl; lia |].
    eexists success, _. split; [reflexivity|].
    split; [simpl; lia | by rewrite Hdone].
Qed.

(** C1. Suppose the first loop has seen the build start, the second
    loop is still running after [n] turns, and its next three samples
    are in time and all show the modification time it last recorded.
    Then [wait_for_build_completion] returns with [completed = True],
    and it does so at the sample that brings the count of unchanged
    samples to 3: the third one when the count was 0. *)
Theorem wait_completes_when_stable (fuel0 j0 n : nat) (s : Poll) :
  fst (while fuel0
         (start_turn self w timeout (get_latest_build_log self (w_fs_initial w))) 0)
    = Ret (Some j0) ->
  turns poll n (first_poll j0) = Some s ->
  (forall i, i < 3 -> sample self w timeout (test s + i) = Some (last_modified s)) ->
  exists success s',
    turns poll (n + (2 - stable_count s)) (first_poll j0) = Some s'
    /\ test s' = test s + (2 - stable_count s)
    /\ fst (poll s') = Ret (Leave (Some (true, success)))
    /\ forall fuel, fuel0 + n + 3 <= fuel ->
         fst (wait_for_build_completion self w timeout fuel) = Ret (true, success).
Proof.
  intros Hstart Hn Hs.
  destruct (three_stable_samples s Hs) as (success & s' & Hk & Htest & Hdone).
  exists success, s'.
  pose proof (turns_add poll _ _ _ _ _ Hn Hk) as Hnk.
  repeat split; [exact Hnk | exact Htest | exact Hdone |].
  intros fuel Hfuel. unfold wait_for_build_completion.
  rewrite bind_latest. cbn [fst]. rewrite fst_bind.
  rewrite (while_mono _ fuel0 0 (Some j0) fuel Hstart) by lia.
  rewrite fst_bind.
  replace fuel with ((n + (2 - stable_count s))
                     + Datatypes.S (fuel - (n + (2 - stable_count s)) - 1)) by lia.
  fold (first_poll j0).
  rewrite (while_turns poll _ _ _ _ Hnk), while_step, Hdone. reflexivity.
Qed.

End StableCompletion.

(** ** C7: the steps of [build] *)

Section WhileTrace.
Context {S R : Type} (body : S -> M (turn S R)).

Lemma snd_while_step fuel s :
  snd (while (Datatypes.S fuel) body s) =
  snd (body s) ++ match fst (body s) with
                  | Ret (Continue s') => snd (while fuel body s')
                  | _ => []
                  end.
Proof.
  simpl. rewrite snd_bind. destruct (fst (body s)) as [[s'|r]|e|]; reflexivity.
Qed.

(** What holds of the value every [Leave] carries holds of the result. *)
Lemma while_result (Q : R -> Prop) :
  (forall s r, fst (body s) = Ret (Leave r) -> Q r) ->
  forall fuel s r, fst (while fuel body s) = Ret r -> Q r.
Proof.
  intros Hbody. induction fuel as [|fuel IH]; intros s r Hr; [discriminate|].
  rewrite while_step in Hr.
  destruct (fst (body s)) as [[s'|r']|e|] eqn:Hs; try done.
  - eauto.
  - injection Hr as <-. eauto.
Qed.

(** A loop whose turns only perform events in [P], unless they leave
    with a result outside [Q], only performs events in [P] when it ends
    with a result in [Q]. *)
Lemma while_trace (P : event -> Prop) (Q : R -> Prop) :
  (forall s s', fst (body s) = Ret (Continue s') -> Forall P (snd (body s))) ->
  (forall s r, fst (body s) = Ret (Leave r) -> Q r -> Forall P (snd (body s))) ->
  forall fuel s r, fst (while fuel body s) = Ret r -> Q r ->
    Forall P (snd (while fuel body s)).
Proof.
  intros Hcont Hleave.
  induction fuel as [|fuel IH]; intros s r Hr HQ; [discriminate|].
  rewrite while_step in Hr. rewrite snd_while_step.
  destruct (fst (body s)) as [[s'|r']|e|] eqn:Hs; try done.
  - apply Forall_app. split; [by eapply Hcont | by eapply IH].
  - injection Hr as <-. rewrite app_nil_r. by eapply Hleave.
Qed.

End WhileTrace.

Ltac quiet_trace := repeat constructor; intros [].

Ltac each_event :=
  repeat (apply Forall_cons; split;
          [first [by eauto | by (right; simpl) | split; [done | intros []]
                 | intros []]|]);
  try apply Forall_nil.

Ltac shape :=
  repeat split; intros; simplify_eq;
  try done; try (by left); try (by right); try (by eauto); try (by each_event).

Section BuildProperties.
Variable self : t.
Variable w : World.
Variable timeout : Z.

Lemma start_turn_quiet initial_log j :
  Forall quiet (snd (start_turn self w timeout initial_log j)).
Proof.
  unfold start_turn. destruct (in_time w timeout j); [|constructor].
  rewrite bind_latest. cbn [snd].
  destruct (get_latest_build_log self (w_fs_glob w j)) as [cur|]; [|quiet_trace].
  destruct initial_log as [ini|]; [|quiet_trace].
  destruct (path_eqb cur ini); [|quiet_trace]. cbn [negb]. unfold stat.
  destruct (Fs.stat_mtime (Fs.root (w_fs_stat w j)) cur) as [m|]; [|quiet_trace].
  cbn [bind ret]. destruct (m >? w_initial_time w)%Z; quiet_trace.
Qed.

(** A turn of the second loop parses the log only when it leaves with
    [completed = True]. *)
Lemma poll_turn_quiet s :
  match fst (poll_turn self w timeout s) with
  | Ret (Leave (Some r)) => fst r = true
  | Ret _ => Forall quiet (snd (poll_turn self w timeout s))
  | _ => True
  end.
Proof.
  unfold poll_turn. destruct (in_time w timeout (test s)); [|constructor].
  rewrite bind_latest. cbn [fst snd].
  destruct (get_latest_build_log self (w_fs_glob w (test s))) as [cur|];
    [|quiet_trace].
  unfold stat.
  destruct (Fs.stat_mtime (Fs.root (w_fs_stat w (test s))) cur) as [m|]; [|done].
  cbn [bind ret app].
  destruct (m =? last_modified s)%Z; [|quiet_trace].
  destruct (3 <=? stable_count s + 1); [|quiet_trace].
  unfold parse_build_log. cbn [bind emit ret fst snd app].
  rewrite getitem_errors. reflexivity.
Qed.

(** When [wait_for_build_completion] reports that the build did not
    complete, it has not parsed any log. *)
Lemma wait_not_completed_quiet fuel success :
  fst (wait_for_build_completion self w timeout fuel) = Ret (false, success) ->
  Forall quiet (snd (wait_for_build_completion self w timeout fuel)).
Proof.
  unfold wait_for_build_completion. rewrite bind_latest. cbn [fst snd].
  set (initial_log := get_latest_build_log self (w_fs_initial w)).
  rewrite fst_bind, snd_bind. intros Hres.
  apply Forall_cons. split; [intros []|].
  destruct (fst (while fuel (start_turn self w timeout initial_log) 0))
    as [[j|]|e|] eqn:Hstart; try done.
  - apply Forall_app. split.
    + eapply (while_trace _ quiet (fun _ => True)); [| |exact Hstart|done];
        intros; apply start_turn_quiet.
    + rewrite fst_bind in Hres. rewrite snd_bind.
      destruct (fst (while fuel (poll_turn self w timeout) _)) as [[r|]|e|] eqn:Hpoll;
        try done.
      * assert (Hr : fst r = true).
        { eapply (while_result _ (fun x => forall r, x = Some r -> fst r = true));
            [|exact Hpoll|reflexivity].
          intros s x Hs r' ->. pose proof (poll_turn_quiet s) as Hq.
          by rewrite Hs in Hq. }
        simpl in Hres. injection Hres as ->. discriminate.
      * rewrite app_nil_r.
        eapply (while_trace _ quiet (fun x => x = None)); [| |exact Hpoll|done].
        -- intros s s' Hs. pose proof (poll_turn_quiet s) as Hq. by rewrite Hs in Hq.
        -- intros s x Hs ->. pose proof (poll_turn_quiet s) as Hq. by rewrite Hs in Hq.
  - rewrite app_nil_r.
    eapply (while_trace _ quiet (fun _ => True)); [| |exact Hstart|done];
      intros; apply start_turn_quiet.
Qed.

(** The step that opens the project, skipped when Xcode is frontmost. *)
Lemma opening_cases :
  let opening := if negb (xcode_already_active w) then open_project_in_xcode w
                 else ret true in
  snd opening = (if xcode_already_active w then []
                 else EvOpen :: if w_open_ok w then [EvSleep 2] else [])
  /\ (fst opening = Ret true <-> xcode_already_active w || w_open_ok w = true).
Proof.
  unfold open_project_in_xcode, w_open_ok.
  destruct (xcode_already_active w), (w_open w); simpl; (split; [done|]);
    intuition congruence.
Qed.

Lemma triggering_cases action :
  snd (trigger_build w action)
  = (if String.eqb action "build" then [EvKeystroke "b"]
     else if String.eqb action "run" then [EvKeystroke "r"] else [])
  /\ (fst (trigger_build w action) = Ret true
      <-> String.eqb action "build" || String.eqb action "run" = true
          /\ w_keystroke_ok w = true).
Proof.
  unfold trigger_build, w_keystroke_ok.
  destruct (String.eqb action "build"), (String.eqb action "run"), (w_keystroke w);
    simpl; (split; [done|]); intuition congruence.
Qed.

Lemma report_trace build_success :
  snd (report self w build_success)
  = EvLatestLog :: match get_latest_build_log self (w_fs_final w) with
                   | Some p => [EvParse p]
                   | None => []
                   end.
Proof.
  unfold report. rewrite bind_latest. cbn [snd].
  destruct (get_latest_build_log self (w_fs_final w)) as [p|]; [|done].
  unfold parse_build_log. cbn [bind emit ret fst snd app].
  rewrite getitem_errors. cbn [bind ret fst snd app].
  destruct (nonempty (elements (errors (scan_log (w_fs_final_read w) p)))); [done|].
  rewrite getitem_warnings. cbn [bind ret fst snd app].
  by destruct (nonempty (elements (warnings (scan_log (w_fs_final_read w) p)))).
Qed.

(** [build], step by step. *)
Lemma build_steps action fuel :
  let opening := if negb (xcode_already_active w) then open_project_in_xcode w
                 else ret true in
  let triggering := trigger_build w action in
  let waited := wait_for_build_completion self w timeout fuel in
  build self w action timeout fuel
  = match fst opening with
    | Ret true =>
        match fst triggering with
        | Ret true =>
            match fst waited with
            | Ret (true, build_success) =>
                (fst (report self w build_success),
                 EvFrontmost :: snd opening ++ snd triggering ++ snd waited
                   ++ snd (report self w build_success))
            | Ret (false, _) =>
                (Ret false, EvFrontmost :: snd opening ++ snd triggering ++ snd waited)
            | Raise e =>
                (Raise e, EvFrontmost :: snd opening ++ snd triggering ++ snd waited)
            | OutOfFuel =>
                (OutOfFuel, EvFrontmost :: snd opening ++ snd triggering ++ snd waited)
            end
        | r => (r, EvFrontmost :: snd opening ++ snd triggering)
        end
    | r => (r, EvFrontmost :: snd opening)
    end.
Proof.
  cbv zeta. unfold build. rewrite bind_emit.
  match goal with
  | |- context [bind ?m _] => destruct m as [[[|]|e|] t1]
  end; cbn [bind ret fst snd app negb]; rewrite ?app_nil_r; try done.
  destruct (trigger_build w action) as [[[|]|e|] t2];
    cbn [bind ret fst snd app negb]; rewrite ?app_nil_r; try done.
  destruct (wait_for_build_completion self w timeout fuel) as [[[[|] b]|e|] t3];
    cbn [bind ret fst snd app negb]; rewrite ?app_nil_r; try done.
  destruct (report self w b) as [r t4]. cbn [fst snd]. by rewrite !app_assoc.
Qed.

(** The steps after the first, whatever the first step is. *)
Lemma steps_after (opening triggering : M bool) (waited : M (bool * bool))
    (reported : bool -> M bool) (run : M bool) :
  run = match fst opening with
        | Ret true =>
            match fst triggering with
            | Ret true =>
                match fst waited with
                | Ret (true, build_success) =>
                    (fst (reported build_success),
                     EvFrontmost :: snd opening ++ snd triggering ++ snd waited
                       ++ snd (reported build_success))
                | Ret (false, _) =>
                    (Ret false, EvFrontmost :: snd opening ++ snd triggering ++ snd waited)
                | Raise e =>
                    (Raise e, EvFrontmost :: snd opening ++ snd triggering ++ snd waited)
                | OutOfFuel =>
                    (OutOfFuel, EvFrontmost :: snd opening ++ snd triggering ++ snd waited)
                end
            | r => (r, EvFrontmost :: snd opening ++ snd triggering)
            end
        | r => (r, EvFrontmost :: snd opening)
        end ->
  Forall quiet (snd opening) -> Forall quiet (snd triggering) ->
  (forall success, fst waited = Ret (false, success) -> Forall quiet (snd waited)) ->
  (fst opening <> Ret true -> run = (fst opening, EvFrontmost :: snd opening))
  /\ (fst opening = Ret true -> fst triggering <> Ret true ->
      run = (fst triggering, EvFrontmost :: snd opening ++ snd triggering))
  /\ (fst opening = Ret true -> fst triggering = Ret true ->
      forall success, fst waited = Ret (false, success) ->
        run = (Ret false, EvFrontmost :: snd opening ++ snd triggering ++ snd waited))
  /\ (fst opening = Ret true -> fst triggering = Ret true ->
      forall e, fst waited = Raise e ->
        run = (Raise e, EvFrontmost :: snd opening ++ snd triggering ++ snd waited))
  /\ (fst opening = Ret true -> fst triggering = Ret true ->
      forall success, fst waited = Ret (true, success) ->
        snd run = EvFrontmost :: snd opening ++ snd triggering ++ snd waited
                    ++ snd (reported success))
  /\ (fst opening = Ret false
      \/ (fst opening = Ret true /\ fst triggering = Ret false)
      \/ (fst opening = Ret true /\ fst triggering = Ret true
          /\ exists success, fst waited = Ret (false, success)) ->
      fst run = Ret false /\ Forall quiet (snd run)).
Proof.
  intros -> Hqo Hqk Hqw.
  split. { intros H. by destruct (fst opening) as [[|]|e|]. }
  split. { intros -> H. by destruct (fst triggering) as [[|]|e|]. }
  split. { by intros -> -> success ->. }
  split. { by intros -> -> e ->. }
  split. { by intros -> -> success ->. }
  intros [-> | [[-> ->] | (-> & -> & success & Hw)]].
  - split; [done|]. cbn [snd]. apply Forall_cons. split; [intros []|done].
  - split; [done|]. cbn [snd]. apply Forall_cons. split; [intros []|].
    by apply Forall_app.
  - rewrite Hw. split; [done|]. cbn [snd]. apply Forall_cons. split; [intros []|].
    rewrite !Forall_app. split; [done|]. split; [done|]. by apply (Hqw success).
Qed.

(** C7. [build] performs its steps in the order open, keystroke, wait,
    parse, and each step only when the one before it succeeded.  Unless
    Xcode is frontmost the project is opened; once it is open the
    keystroke of the action is sent; once the keystroke is sent the log
    is polled; once completion is detected the newest log is looked up
    and, if there is one, parsed.  When opening fails, when triggering
    fails, or when completion is not detected, nothing further is done:
    [build] returns [False], and no log has been parsed.  When a step
    raises, nothing further is done either and [build] raises the
    same. *)
Theorem build_steps_in_order (action : string) (fuel : nat) :
  let run := build self w action timeout fuel in
  let opening := if negb (xcode_already_active w) then open_project_in_xcode w
                 else ret true in
  let triggering := trigger_build w action in
  let waited := wait_for_build_completion self w timeout fuel in
  let looked_up :=
    EvLatestLog :: match get_latest_build_log self (w_fs_final w) with
                   | Some p => [EvParse p]
                   | None => []
                   end in
  (snd opening = if xcode_already_active w then []
                 else EvOpen :: if w_open_ok w then [EvSleep 2] else [])
  /\ (snd triggering = if String.eqb action "build" then [EvKeystroke "b"]
                       else if String.eqb action "run" then [EvKeystroke "r"] else [])
  /\ (fst opening <> Ret true -> run = (fst opening, EvFrontmost :: snd opening))
  /\ (fst opening = Ret true -> fst triggering <> Ret true ->
      run = (fst triggering, EvFrontmost :: snd opening ++ snd triggering))
  /\ (fst opening = Ret true -> fst triggering = Ret true ->
      forall success, fst waited = Ret (false, success) ->
        run = (Ret false, EvFrontmost :: snd opening ++ snd triggering ++ snd waited))
  /\ (fst opening = Ret true -> fst triggering = Ret true ->
      forall e, fst waited = Raise e ->
        run = (Raise e, EvFrontmost :: snd opening ++ snd triggering ++ snd waited))
  /\ (fst opening = Ret true -> fst triggering = Ret true ->
      forall success, fst waited = Ret (true, success) ->
        snd run = EvFrontmost :: snd opening ++ snd triggering ++ snd waited ++ looked_up)
  /\ (fst opening = Ret false
      \/ (fst opening = Ret true /\ fst triggering = Ret false)
      \/ (fst opening = Ret true /\ fst triggering = Ret true
          /\ exists success, fst waited = Ret (false, success)) ->
      fst run = Ret false /\ Forall quiet (snd run)).
Proof.
  cbv zeta.
  pose proof opening_cases as [Hopens _].
  pose proof (triggering_cases action) as [Hkeys _].
  split; [exact Hopens|]. split; [exact Hkeys|].
  pose proof (steps_after _ _ _ (report self w) _ (build_steps action fuel)) as Hsteps.
  cbv zeta in Hsteps.
  setoid_rewrite report_trace in Hsteps. apply Hsteps.
  - cbv zeta in Hopens. rewrite Hopens.
    destruct (xcode_already_active w), (w_open_ok w); quiet_trace.
  - rewrite Hkeys.
    destruct (String.eqb action "build"), (String.eqb action "run"); quiet_trace.
  - apply wait_not_completed_quiet.
Qed.

End BuildProperties.

(** * More of the script *)

(** ** How the two loops of [wait_for_build_completion] end *)

Section WaitLoops.
Variable self : t.
Variable w : World.
Variable timeout : Z.

Local Abbreviation start := (start_turn self w timeout).
Local Abbreviation poll := (poll_turn self w timeout).

(** The ways one turn of the first loop can go. *)
Lemma start_turn_cases initial_log j :
  (in_time w timeout j = false /\ fst (start initial_log j) = Ret (Leave None))
  \/ (in_time w timeout j = true /\ no_new_log self w initial_log j
      /\ fst (start initial_log j) = Ret (Continue (S j)))
  \/ (started self w timeout initial_log j
      /\ fst (start initial_log j) = Ret (Leave (Some (S j))))
  \/ (in_time w timeout j = true /\ exists e, fst (start initial_log j) = Raise e).
Proof.
  unfold start_turn, started, no_new_log.
  destruct (in_time w timeout j) eqn:Hin; [|by left].
  right. rewrite bind_latest. cbn [fst].
  destruct (get_latest_build_log self (w_fs_glob w j)) as [cur|] eqn:Hcur;
    [|left; by repeat split].
  destruct initial_log as [ini|]; [|right; left; split; [|done]; eauto 6].
  unfold path_eqb. destruct (bool_decide_reflect (cur = ini)) as [->|Hne]; cbn [negb].
  - unfold stat.
    destruct (Fs.stat_mtime (Fs.root (w_fs_stat w j)) ini) as [m|] eqn:Hm;
      [|right; right; split; [done|]; by eexists].
    cbn [bind ret fst]. destruct (Z.gtb_spec m (w_initial_time w)).
    + right; left. split; [|done]. split; [done|]. exists ini. split; [done|].
      right; right. exists m. split; [done | lia].
    + left. repeat split; eauto.
  - right; left. split; [|done]. split; [done|]. exists cur. split; [done|].
    right; left. congruence.
Qed.

(** The ways one turn of the second loop can go. *)
Lemma poll_turn_cases s :
  (in_time w timeout (test s) = false /\ fst (poll s) = Ret (Leave None))
  \/ (in_time w timeout (test s) = true
      /\ get_latest_build_log self (w_fs_glob w (test s)) = None
      /\ fst (poll s) = Ret (Continue {| last_modified := last_modified s;
                                         stable_count := stable_count s;
                                         test := S (test s) |}))
  \/ (exists m, sample self w timeout (test s) = Some m /\ m <> last_modified s
      /\ fst (poll s) = Ret (Continue {| last_modified := m; stable_count := 0;
                                         test := S (test s) |}))
  \/ (sample self w timeout (test s) = Some (last_modified s)
      /\ stable_count s + 1 < 3
      /\ fst (poll s) = Ret (Continue {| last_modified := last_modified s;
                                         stable_count := stable_count s + 1;
                                         test := S (test s) |}))
  \/ (sample self w timeout (test s) = Some (last_modified s)
      /\ 3 <= stable_count s + 1
      /\ exists cur,
           get_latest_build_log self (w_fs_glob w (test s)) = Some cur
           /\ fst (poll s)
              = Ret (Leave (Some (true,
                   length (elements (errors (scan_log (w_fs_read w (test s)) cur)))
                   =? 0))))
  \/ (in_time w timeout (test s) = true /\ exists e, fst (poll s) = Raise e).
Proof.
  unfold poll_turn, sample.
  destruct (in_time w timeout (test s)) eqn:Hin; [|by left].
  right. rewrite bind_latest. cbn [fst].
  destruct (get_latest_build_log self (w_fs_glob w (test s))) as [cur|] eqn:Hcur;
    [|left; by repeat split].
  right. unfold stat.
  destruct (Fs.stat_mtime (Fs.root (w_fs_stat w (test s))) cur) as [m|] eqn:Hm;
    [|do 3 right; split; [done|]; by eexists].
  cbn [bind ret fst]. destruct (Z.eqb_spec m (last_modified s)) as [->|Hne].
  - right. destruct (Nat.leb_spec 3 (stable_count s + 1)).
    + right; left. repeat split; [done|]. exists cur. split; [done|].
      unfold parse_build_log. cbn [bind emit ret fst snd app].
      rewrite getitem_errors. reflexivity.
    + left. by repeat split.
  - left. exists m. by repeat split.
Qed.

End WaitLoops.

Section LoopFacts.
Context {S R : Type} (body : S -> M (turn S R)).

(** A loop that ended left from a state it reached by going round. *)
Lemma while_leaves fuel : forall s r,
  fst (while fuel body s) = Ret r ->
  exists n s', n < fuel /\ turns body n s = Some s' /\ fst (body s') = Ret (Leave r).
Proof.
  induction fuel as [|fuel IH]; intros s r Hr; [discriminate|].
  rewrite while_step in Hr.
  destruct (fst (body s)) as [[s1|r1]|e|] eqn:Hs; try done.
  - apply IH in Hr as (n & s' & Hn & Ht & Hl).
    exists (Datatypes.S n), s'. split; [lia|]. split; [|done]. simpl. by rewrite Hs.
  - injection Hr as <-. exists 0, s. split; [lia|]. by split.
Qed.

(** What every turn keeps holds of every state the loop reaches. *)
Lemma turns_invariant (I : S -> Prop) :
  (forall s s', I s -> fst (body s) = Ret (Continue s') -> I s') ->
  forall n s s', I s -> turns body n s = Some s' -> I s'.
Proof.
  intros Hstep. induction n as [|n IH]; intros s s' Hs Hn; simpl in Hn.
  - by injection Hn as <-.
  - destruct (fst (body s)) as [[s1|r1]|e|] eqn:Hb; try done. eauto.
Qed.

(** A loop only raises what one of its turns raises. *)
Lemma while_raises fuel : forall s e,
  fst (while fuel body s) = Raise e ->
  exists n s', turns body n s = Some s' /\ fst (body s') = Raise e.
Proof.
  induction fuel as [|fuel IH]; intros s e He; [discriminate|].
  rewrite while_step in He.
  destruct (fst (body s)) as [[s1|r1]|e1|] eqn:Hs; try done.
  - apply IH in He as (n & s' & Ht & Hr).
    exists (Datatypes.S n), s'. split; [|done]. simpl. by rewrite Hs.
  - injection He as <-. by exists 0, s.
Qed.

(** The trace of a loop that returns: what the turns that went round
    performed, then what the turn that left performed. *)
Lemma while_trace_last (P : event -> Prop) fuel : forall s r,
  (forall s s', fst (body s) = Ret (Continue s') -> Forall P (snd (body s))) ->
  fst (while fuel body s) = Ret r ->
  exists n s' before,
    turns body n s = Some s' /\ fst (body s') = Ret (Leave r)
    /\ snd (while fuel body s) = before ++ snd (body s') /\ Forall P before.
Proof.
  induction fuel as [|fuel IH]; intros s r HP Hr; [discriminate|].
  rewrite while_step in Hr. rewrite snd_while_step.
  destruct (fst (body s)) as [[s1|r1]|e|] eqn:Hs; try done.
  - destruct (IH _ _ HP Hr) as (n & s' & before & Hn & Hl & Ht & Hb).
    exists (Datatypes.S n), s', (snd (body s) ++ before). split.
    { simpl. by rewrite Hs. }
    split; [done|]. split; [by rewrite Ht, app_assoc|].
    apply Forall_app. split; [by eapply HP | done].
  - injection Hr as <-. exists 0, s, []. by rewrite app_nil_r.
Qed.

End LoopFacts.

Section WaitEnds.
Variable self : t.
Variable w : World.
Variable timeout : Z.

Local Abbreviation start := (start_turn self w timeout).
Local Abbreviation poll := (poll_turn self w timeout).

Lemma start_loop_ends initial_log k : forall j fuel,
  in_time w timeout (j + k) = false -> k < fuel ->
  fst (while fuel (start initial_log) j) <> OutOfFuel
  /\ forall j', fst (while fuel (start initial_log) j) = Ret (Some j') -> j' <= j + k.
Proof.
  induction k as [|k IH]; intros j fuel Hout Hfuel;
    (destruct fuel as [|fuel]; [lia|]); rewrite while_step.
  - rewrite Nat.add_0_r in Hout.
    destruct (start_turn_cases self w timeout initial_log j)
      as [[_ ->] | [(Hin & _) | [([Hin _] & _) | [Hin _]]]]; [done|congruence..].
  - destruct (start_turn_cases self w timeout initial_log j)
      as [[_ ->] | [(_ & _ & ->) | [(_ & ->) | [_ [e ->]]]]]; try done.
    + replace (j + Datatypes.S k) with (Datatypes.S j + k) in * by lia.
      by apply IH; [|lia].
    + split; [done|]. intros j' [= <-]. lia.
Qed.

Lemma poll_loop_ends k : forall s fuel,
  in_time w timeout (test s + k) = false -> k < fuel ->
  fst (while fuel poll s) <> OutOfFuel.
Proof.
  induction k as [|k IH]; intros s fuel Hout Hfuel;
    (destruct fuel as [|fuel]; [lia|]); rewrite while_step.
  - rewrite Nat.add_0_r in Hout.
    destruct (poll_turn_cases self w timeout s)
      as [[_ ->] | [(Hin & _) | [(m & Hs & _) | [(Hs & _) | [(Hs & _) | [Hin _]]]]]];
      try done; try congruence;
      apply sample_inv in Hs as [Hin _]; congruence.
  - destruct (poll_turn_cases self w timeout s)
      as [[_ ->] | [(_ & _ & ->) | [(m & _ & _ & ->) | [(_ & _ & ->)
          | [(_ & _ & cur & _ & ->) | [_ [e ->]]]]]]]; try done;
      (apply IH; [|lia]); cbn [test];
      by replace (Datatypes.S (test s) + k) with (test s + Datatypes.S k) by lia.
Qed.

Lemma wait_never_out_of_fuel (n fuel : nat) :
  in_time w timeout n = false -> n < fuel ->
  fst (wait_for_build_completion self w timeout fuel) <> OutOfFuel.
Proof.
  intros Hout Hfuel. unfold wait_for_build_completion.
  rewrite bind_latest. cbn [fst]. rewrite fst_bind.
  destruct (start_loop_ends (get_latest_build_log self (w_fs_initial w)) n 0 fuel)
    as [Hends Hle]; [done..|].
  destruct (fst (while fuel (start (get_latest_build_log self (w_fs_initial w))) 0))
    as [[j|]|e|] eqn:Hstart; try done.
  rewrite fst_bind. specialize (Hle j eq_refl).
  pose proof (poll_loop_ends (n - j)
                {| last_modified := 0; stable_count := 0; test := j |} fuel) as Hp.
  cbn [test] in Hp. replace (j + (n - j)) with n in Hp by lia.
  specialize (Hp Hout ltac:(lia)).
  destruct (fst (while fuel poll _)) as [[r|]|e|]; done.
Qed.

(** The first loop counts its tests; every test that it goes round
    after is within the timeout. *)
Lemma turns_start initial_log k : forall j j',
  turns (start initial_log) k j = Some j' ->
  j' = j + k /\ forall i, i < k -> in_time w timeout (j + i) = true.
Proof.
  induction k as [|k IH]; intros j j' H; simpl in H.
  - injection H as <-. split; [lia|]. intros i Hi. lia.
  - destruct (start_turn_cases self w timeout initial_log j)
      as [[_ Hs] | [(Hin & _ & Hs) | [(_ & Hs) | [_ [e Hs]]]]];
      rewrite Hs in H; try done.
    apply IH in H as [-> Hall]. split; [lia|].
    intros [|i] Hi; [by rewrite Nat.add_0_r|].
    replace (j + Datatypes.S i) with (Datatypes.S j + i) by lia. apply Hall. lia.
Qed.

Lemma turns_poll k : forall s s',
  turns poll k s = Some s' ->
  test s' = test s + k /\ forall i, i < k -> in_time w timeout (test s + i) = true.
Proof.
  induction k as [|k IH]; intros s s' H; simpl in H.
  - injection H as <-. split; [lia|]. intros i Hi. lia.
  - assert (Hstep : exists s1, fst (poll s) = Ret (Continue s1)
                               /\ test s1 = Datatypes.S (test s)
                               /\ in_time w timeout (test s) = true
                               /\ turns poll k s1 = Some s').
    { destruct (poll_turn_cases self w timeout s)
        as [[_ Hp] | [(Hin & _ & Hp) | [(m & Hm & _ & Hp) | [(Hm & _ & Hp)
            | [(_ & _ & cur & _ & Hp) | [_ [e Hp]]]]]]];
        rewrite Hp in H; try done; eexists; (split; [done|]); (split; [done|]);
        (split; [|done]); try done; by apply sample_inv in Hm as [? _]. }
    destruct Hstep as (s1 & _ & Ht & Hin & Hk).
    apply IH in Hk as [-> Hall]. split; [lia|].
    intros [|i] Hi; [by rewrite Nat.add_0_r|].
    replace (test s + Datatypes.S i) with (test s1 + i) by lia. apply Hall. lia.
Qed.

(** A run that is over is over at some loop test. *)
Lemma wait_ends fuel :
  fst (wait_for_build_completion self w timeout fuel) <> OutOfFuel ->
  exists last, ends_at self w timeout last
                 (fst (wait_for_build_completion self w timeout fuel)).
Proof.
  unfold wait_for_build_completion, ends_at, poll_reaches, start_breaks, start_reaches.
  rewrite bind_latest. cbn [fst]. rewrite fst_bind. cbv zeta.
  set (ini := get_latest_build_log self (w_fs_initial w)).
  destruct (fst (while fuel (start ini) 0)) as [[j0|]|e|] eqn:Hstart; [| | |done].
  - apply while_leaves in Hstart as (n & j & _ & Hn & Hleave).
    pose proof (turns_start _ _ _ _ Hn) as [Hj _]. simpl in Hj. subst j.
    assert (j0 = Datatypes.S n) as ->.
    { destruct (start_turn_cases self w timeout ini n)
        as [[_ Hs] | [(_ & _ & Hs) | [(_ & Hs) | [_ [e Hs]]]]];
        rewrite Hs in Hleave; congruence. }
    rewrite fst_bind.
    destruct (fst (while fuel poll _)) as [[c|]|e|] eqn:Hpoll; [| | |done]; intros _.
    + apply while_leaves in Hpoll as (k & s & _ & Hk & Hl).
      exists (test s). right. exists (Datatypes.S n), s. repeat split; eauto.
    + apply while_leaves in Hpoll as (k & s & _ & Hk & Hl).
      exists (test s). right. exists (Datatypes.S n), s. repeat split; eauto.
    + apply while_raises in Hpoll as (k & s & Hk & Hr).
      exists (test s). right. exists (Datatypes.S n), s. repeat split; eauto.
  - intros _. apply while_leaves in Hstart as (n & j & _ & Hn & Hleave).
    pose proof (turns_start _ _ _ _ Hn) as [Hj _]. simpl in Hj. subst j.
    exists n. left. split; [done|]. by left.
  - intros _. apply while_raises in Hstart as (n & j & Hn & Hr).
    pose proof (turns_start _ _ _ _ Hn) as [Hj _]. simpl in Hj. subst j.
    exists n. left. split; [done|]. right. by exists e.
Qed.

(** No loop test after the one at which the timeout has elapsed is
    performed. *)
Lemma ends_at_bound n last r :
  in_time w timeout n = false -> ends_at self w timeout last r -> last <= n.
Proof.
  unfold ends_at, poll_reaches, start_breaks, start_reaches.
  intros Hout [[Hreach _] | (j0 & s & [(j & -> & Hreach & Hbreak) [k Hk]] & <- & _)].
  - apply turns_start in Hreach as [_ Hall].
    destruct (Nat.le_gt_cases last n) as [|Hlt]; [done|].
    specialize (Hall n Hlt). simpl in Hall. congruence.
  - apply turns_start in Hreach as [_ Hall].
    apply turns_poll in Hk as [-> Hall']. cbn [test first_poll] in *.
    assert (Hj : in_time w timeout j = true).
    { destruct (start_turn_cases self w timeout
                  (get_latest_build_log self (w_fs_initial w)) j)
        as [[_ Hs] | [(_ & _ & Hs) | [([Hin _] & _) | [_ [e Hs]]]]];
        try (rewrite Hs in Hbreak; congruence); done. }
    destruct (Nat.le_gt_cases (Datatypes.S j + k) n) as [|Hlt]; [done|].
    destruct (Nat.lt_ge_cases n j) as [Hn|Hn].
    + specialize (Hall n Hn). simpl in Hall. congruence.
    + destruct (decide (n = j)) as [->|]; [congruence|].
      specialize (Hall' (n - Datatypes.S j) ltac:(lia)).
      replace (Datatypes.S j + (n - Datatypes.S j)) with n in Hall' by lia. congruence.
Qed.

(** X1. The timeout bounds the wait.  When the clock has passed the
    timeout at loop test [n], the run of [wait_for_build_completion] is
    over at a loop test not after [n], the tests of the two loops
    counted together: it has returned or raised there, and [n + 1]
    units of fuel are never used up. *)
Theorem wait_ends_by_timeout (n fuel : nat) :
  in_time w timeout n = false -> n < fuel ->
  exists last,
    last <= n
    /\ ends_at self w timeout last (fst (wait_for_build_completion self w timeout fuel)).
Proof.
  intros Hout Hfuel.
  destruct (wait_ends fuel) as [last Hlast]; [by eapply wait_never_out_of_fuel|].
  exists last. split; [|done]. by eapply ends_at_bound.
Qed.

(** The first loop leaves at the first loop test at which the build is
    seen to start. *)
Lemma start_loop_leaves initial_log fuel : forall j j',
  fst (while fuel (start initial_log) j) = Ret (Some j') ->
  exists i, j' = Datatypes.S i /\ j <= i
            /\ started self w timeout initial_log i
            /\ forall t, j <= t < i ->
                 in_time w timeout t = true /\ no_new_log self w initial_log t.
Proof.
  induction fuel as [|fuel IH]; intros j j' H; [discriminate|].
  rewrite while_step in H.
  destruct (start_turn_cases self w timeout initial_log j)
    as [[_ Hs] | [(Hin & Hno & Hs) | [(Hst & Hs) | [_ [e Hs]]]]];
    rewrite Hs in H; try done.
  - apply IH in H as (i & -> & Hle & Hst & Hq). exists i.
    split; [done|]. split; [lia|]. split; [done|].
    intros t Ht. destruct (decide (t = j)) as [->|]; [done|]. apply Hq. lia.
  - injection H as <-. exists j. split; [done|]. split; [lia|]. split; [done|].
    intros t Ht. lia.
Qed.

Lemma started_not_quiet initial_log j :
  started self w timeout initial_log j -> no_new_log self w initial_log j -> False.
Proof.
  unfold started, no_new_log. intros (_ & cur & -> & H) (-> & m & Hm & Hle).
  destruct H as [H | [H | (m' & Hm' & Hgt)]]; [done..|].
  rewrite Hm in Hm'. injection Hm' as <-. lia.
Qed.

Lemma start_loop_finds initial_log k : forall j fuel,
  (forall t, j <= t < j + k ->
     in_time w timeout t = true /\ no_new_log self w initial_log t) ->
  started self w timeout initial_log (j + k) -> k < fuel ->
  fst (while fuel (start initial_log) j) = Ret (Some (Datatypes.S (j + k))).
Proof.
  induction k as [|k IH]; intros j fuel Hq Hst Hfuel;
    (destruct fuel as [|fuel]; [lia|]); rewrite while_step.
  - rewrite Nat.add_0_r in *.
    destruct (start_turn_cases self w timeout initial_log j)
      as [[Hin Hs] | [(Hin & Hno & Hs) | [(_ & Hs) | [_ [e Hs]]]]].
    + destruct Hst as [Hin' _]. congruence.
    + by destruct (started_not_quiet _ _ Hst Hno).
    + by rewrite Hs.
    + exfalso. revert Hs. unfold start_turn.
      destruct Hst as (Hin & cur & Hcur & Hc). rewrite Hin, bind_latest, Hcur. cbn [fst].
      destruct initial_log as [ini|]; [|done].
      unfold path_eqb. destruct (bool_decide_reflect (cur = ini)) as [->|]; [|done].
      cbn [negb]. destruct Hc as [Hc | [Hc | (m & Hm & _)]]; [done..|].
      unfold stat. rewrite Hm. cbn [bind ret fst].
      by destruct (m >? w_initial_time w)%Z.
  - destruct (Hq j ltac:(lia)) as [Hin Hno].
    rewrite start_turn_waits by done. cbn [fst].
    replace (j + Datatypes.S k) with (Datatypes.S j + k) by lia.
    apply IH; [| |lia].
    + intros t Ht. apply Hq. lia.
    + by replace (Datatypes.S j + k) with (j + Datatypes.S k) by lia.
Qed.

(** X2. The build is reported as started at the first loop test, and
    only at a loop test, at which a log is found that is new, differs
    from the initial one, or was modified after [initial_time]. *)
Theorem build_start_is_first_new_log (j : nat) :
  let initial_log := get_latest_build_log self (w_fs_initial w) in
  (exists fuel, fst (while fuel (start initial_log) 0) = Ret (Some (Datatypes.S j)))
  <-> started self w timeout initial_log j
      /\ forall t, t < j ->
           in_time w timeout t = true /\ no_new_log self w initial_log t.
Proof.
  cbv zeta. split.
  - intros [fuel H]. apply start_loop_leaves in H as (i & [= <-] & _ & Hst & Hq).
    split; [done|]. intros t Ht. apply Hq. lia.
  - intros [Hst Hq]. exists (Datatypes.S j).
    apply (start_loop_finds _ j 0); [|done|lia]. intros t Ht. apply Hq. lia.
Qed.

End WaitEnds.

Section WaitResults.
Variable self : t.
Variable w : World.
Variable timeout : Z.

Local Abbreviation start := (start_turn self w timeout).
Local Abbreviation poll := (poll_turn self w timeout).

Lemma steady_extend m a b :
  steady self w timeout m a b ->
  in_time w timeout b = true ->
  get_latest_build_log self (w_fs_glob w b) = None \/ sample self w timeout b = Some m ->
  steady self w timeout m a (Datatypes.S b).
Proof.
  intros Hs Hin Hb t Ht. destruct (decide (t = b)) as [->|]; [done|]. apply Hs. lia.
Qed.

Lemma poll_invariant_first j0 : poll_invariant self w timeout j0 (first_poll j0).
Proof.
  exists j0. simpl. repeat split; try lia; try done.
Qed.

Lemma poll_invariant_step j0 s s' :
  poll_invariant self w timeout j0 s -> fst (poll s) = Ret (Continue s') -> poll_invariant self w timeout j0 s'.
Proof.
  intros (a & Ha & Hsteady & Hrec & H1 & H2) Hs.
  destruct (poll_turn_cases self w timeout s)
    as [[_ Hp] | [(Hin & Hnone & Hp) | [(m & Hm & Hne & Hp) | [(Hm & Hlt & Hp)
        | [(_ & _ & cur & _ & Hp) | [_ [e Hp]]]]]]];
    rewrite Hp in Hs; try done; injection Hs as <-.
  - exists a. cbn [test last_modified stable_count]. split; [lia|].
    split; [apply steady_extend; auto|]. split; [done|]. split.
    + intros Hc. destruct (H1 Hc) as (t2 & Ht2 & Hs2). exists t2. split; [lia | done].
    + intros Hc. destruct (H2 Hc) as (t1 & t2 & Ht1 & Ht2 & Hs1 & Hs2).
      exists t1, t2. repeat split; try done; lia.
  - exists (Datatypes.S (test s)). cbn [test last_modified stable_count].
    split; [lia|]. split; [intros t Ht; lia|]. split.
    + intros _. exists (test s). split; [lia|]. by split.
    + split; intros Hc; lia.
  - pose proof Hm as Hm'. apply sample_inv in Hm' as [Hin _].
    exists a. cbn [test last_modified stable_count]. split; [lia|].
    split; [apply steady_extend; auto|]. split; [done|]. split.
    + intros _. exists (test s). split; [lia | done].
    + intros Hc. destruct (H1 ltac:(lia)) as (t2 & Ht2 & Hs2).
      exists t2, (test s). repeat split; try done; lia.
Qed.

(** What the turn that reports completion performs. *)
Lemma poll_turn_completes s success :
  fst (poll s) = Ret (Leave (Some (true, success))) ->
  exists cur,
    get_latest_build_log self (w_fs_glob w (test s)) = Some cur
    /\ sample self w timeout (test s) = Some (last_modified s)
    /\ 3 <= stable_count s + 1
    /\ (success = true <-> errors (scan_log (w_fs_read w (test s)) cur) = ∅)
    /\ snd (poll s) = [EvLatestLog; EvParse cur].
Proof.
  intros Hleave.
  destruct (poll_turn_cases self w timeout s)
    as [[_ Hp] | [(_ & _ & Hp) | [(m & _ & _ & Hp) | [(_ & _ & Hp)
        | [(Hm & Hge & cur & Hcur & Hp) | [_ [e Hp]]]]]]];
    rewrite Hp in Hleave; try done.
  injection Hleave as <-. exists cur. do 3 (split; [done|]). split.
  - rewrite Nat.eqb_eq, length_zero_iff_nil. split.
    + intros H. apply elements_empty_inv in H. by apply leibniz_equiv in H.
    + intros ->. apply elements_empty.
  - apply sample_inv in Hm as [Hin _]. unfold poll_turn. rewrite Hin, bind_latest, Hcur.
    cbn [snd]. revert Hp. unfold poll_turn. rewrite Hin, bind_latest, Hcur. cbn [fst].
    unfold stat.
    destruct (Fs.stat_mtime (Fs.root (w_fs_stat w (test s))) cur) as [m|]; [|done].
    cbn [bind ret fst snd app].
    destruct (m =? last_modified s)%Z; [|done].
    destruct (3 <=? stable_count s + 1); [|done].
    unfold parse_build_log. cbn [bind emit ret fst snd app].
    by rewrite getitem_errors.
Qed.

(** A run that reports completion ends in the second loop; until the
    turn that reports it, no log has been parsed. *)
Lemma wait_completed fuel success :
  fst (wait_for_build_completion self w timeout fuel) = Ret (true, success) ->
  exists j0 s before,
    poll_reaches self w timeout j0 s
    /\ fst (poll s) = Ret (Leave (Some (true, success)))
    /\ snd (wait_for_build_completion self w timeout fuel) = before ++ snd (poll s)
    /\ Forall quiet before.
Proof.
  unfold wait_for_build_completion, poll_reaches, start_breaks, start_reaches.
  rewrite bind_latest. cbn [fst snd]. rewrite fst_bind, snd_bind.
  set (ini := get_latest_build_log self (w_fs_initial w)).
  destruct (fst (while fuel (start ini) 0)) as [[j0|]|e|] eqn:Hstart; try done.
  rewrite fst_bind, snd_bind.
  destruct (fst (while fuel poll _)) as [[c|]|e|] eqn:Hpoll; try done.
  cbn [ret fst snd]. intros [= ->]. rewrite app_nil_r.
  assert (Hq0 : Forall quiet (snd (while fuel (start ini) 0))).
  { eapply (while_trace _ quiet (fun _ => True)); [| |exact Hstart|done];
      intros; apply start_turn_quiet. }
  apply while_leaves in Hstart as (n & j & _ & Hn & Hleave).
  pose proof (turns_start self w timeout _ _ _ _ Hn) as [Hj _]. simpl in Hj. subst j.
  assert (j0 = Datatypes.S n) as ->.
  { destruct (start_turn_cases self w timeout ini n)
      as [[_ Hs] | [(_ & _ & Hs) | [(_ & Hs) | [_ [e Hs]]]]];
      rewrite Hs in Hleave; congruence. }
  destruct (while_trace_last poll quiet fuel _ _
              ltac:(intros s1 s2 Hs; pose proof (poll_turn_quiet self w timeout s1) as Hq;
                    by rewrite Hs in Hq) Hpoll)
    as (k & s & before & Hk & Hl & Ht & Hb).
  exists (Datatypes.S n), s, (EvLatestLog :: snd (while fuel (start ini) 0) ++ before).
  split; [split; eauto|]. split; [done|]. split.
  - rewrite Ht. cbn [app]. by rewrite <- app_assoc.
  - apply Forall_cons. split; [intros []|]. by apply Forall_app.
Qed.

(** X3. Completion is only signalled for a stable log.  When
    [wait_for_build_completion] returns with [completed = True], it
    does so from a state [s] of the second loop, at loop test [test s],
    and the second loop has by then read the same modification time,
    [last_modified s], at three of its tests, of which [test s] is the
    last, and no other modification time in between; unless that time
    is 0, the initial value of [last_modified], a fourth test of the
    second loop had recorded it just before. *)
Theorem completion_needs_stable_log (fuel : nat) (success : bool) :
  fst (wait_for_build_completion self w timeout fuel) = Ret (true, success) ->
  exists j0 s t1 t2,
    poll_reaches self w timeout j0 s
    /\ fst (poll s) = Ret (Leave (Some (true, success)))
    /\ j0 <= t1 /\ t1 < t2 < test s
    /\ sample self w timeout t1 = Some (last_modified s)
    /\ sample self w timeout t2 = Some (last_modified s)
    /\ sample self w timeout (test s) = Some (last_modified s)
    /\ steady self w timeout (last_modified s) t1 (Datatypes.S (test s))
    /\ (last_modified s <> 0%Z ->
        exists t0, j0 <= t0 < t1
                   /\ sample self w timeout t0 = Some (last_modified s)
                   /\ steady self w timeout (last_modified s) t0 (Datatypes.S (test s))).
Proof.
  intros HW. apply wait_completed in HW as (j0 & s & before & Hreach & Hleave & _).
  pose proof Hreach as [_ [k Hk]].
  pose proof (turns_invariant poll (poll_invariant self w timeout j0)
                (poll_invariant_step j0) k _ s (poll_invariant_first j0) Hk)
    as (a & Ha & Hsteady & Hrec & _ & H2).
  destruct (poll_turn_completes s success Hleave) as (cur & _ & Hm & Hge & _).
  destruct (H2 ltac:(lia)) as (t1 & t2 & Ht1 & Ht2 & Hs1 & Hs2).
  pose proof Hm as Hm'. apply sample_inv in Hm' as [Hin _].
  assert (Hall : steady self w timeout (last_modified s) a (Datatypes.S (test s)))
    by (apply steady_extend; auto).
  exists j0, s, t1, t2.
  do 2 (split; [done|]). split; [lia|]. do 4 (split; [done|]). split.
  - intros t Ht. apply Hall. lia.
  - intros Hne. destruct (Hrec Hne) as (t0 & Hj0 & -> & Hs0).
    exists t0. split; [lia|]. split; [done|].
    intros t Ht. destruct (decide (t = t0)) as [->|].
    + pose proof Hs0 as Hs0'. apply sample_inv in Hs0' as [Hin0 _]. auto.
    + apply Hall. lia.
Qed.

(** X4. The pair that [wait_for_build_completion] returns.  It never
    reports success without completion; and when it reports completion,
    from a state [s] of the second loop, [success] says that the log it
    parsed, the newest one at loop test [test s], has no error.  That
    log is parsed last, and no other log has been parsed before. *)
Theorem wait_result_shape (fuel : nat) (completed success : bool) :
  fst (wait_for_build_completion self w timeout fuel) = Ret (completed, success) ->
  (completed = false /\ success = false)
  \/ (completed = true
      /\ exists j0 s cur before,
           poll_reaches self w timeout j0 s
           /\ fst (poll s) = Ret (Leave (Some (true, success)))
           /\ get_latest_build_log self (w_fs_glob w (test s)) = Some cur
           /\ (success = true <-> errors (scan_log (w_fs_read w (test s)) cur) = ∅)
           /\ snd (wait_for_build_completion self w timeout fuel)
              = before ++ [EvParse cur]
           /\ Forall quiet before).
Proof.
  destruct completed.
  - intros HW. right. split; [done|].
    apply wait_completed in HW as (j0 & s & before & Hreach & Hleave & Htrace & Hquiet).
    destruct (poll_turn_completes s success Hleave) as (cur & Hcur & _ & _ & Hsucc & Hs).
    exists j0, s, cur, (before ++ [EvLatestLog]).
    do 4 (split; [done|]). split.
    + rewrite Htrace, Hs. by rewrite <- app_assoc.
    + apply Forall_app. split; [done|]. apply Forall_cons. split; [intros []|done].
  - intros HW. left. split; [done|]. revert HW.
    unfold wait_for_build_completion. rewrite bind_latest. cbn [fst]. rewrite fst_bind.
    destruct (fst (while fuel (start (get_latest_build_log self (w_fs_initial w))) 0))
      as [[j0|]|e|]; try done; [|by intros [= <-]].
    rewrite fst_bind.
    destruct (fst (while fuel poll _)) as [[r|]|e|] eqn:Hloop; try done;
      [|by intros [= <-]].
    cbn [ret fst]. intros [= ->].
    apply while_leaves in Hloop as (n & s & _ & _ & Hleave).
    destruct (poll_turn_cases self w timeout s)
      as [[_ Hp] | [(_ & _ & Hp) | [(m & _ & _ & Hp) | [(_ & _ & Hp)
          | [(_ & _ & cur & _ & Hp) | [_ [e Hp]]]]]]];
      rewrite Hp in Hleave; done.
Qed.

End WaitResults.

(** ** What [build] and [main] report *)

Section BuildResults.
Variable self : t.
Variable w : World.
Variable timeout : Z.

Lemma report_result build_success :
  fst (report self w build_success)
  = Ret (match get_latest_build_log self (w_fs_final w) with
         | Some p => negb (nonempty (elements (errors (scan_log (w_fs_final_read w) p))))
         | None => build_success
         end).
Proof.
  unfold report. rewrite bind_latest. cbn [fst].
  destruct (get_latest_build_log self (w_fs_final w)) as [p|]; [|done].
  unfold parse_build_log. cbn [bind emit ret fst snd app].
  rewrite getitem_errors. cbn [bind ret fst snd app].
  destruct (nonempty (elements (errors (scan_log (w_fs_final_read w) p)))); [done|].
  rewrite getitem_warnings. cbn [bind ret fst snd app].
  by destruct (nonempty (elements (warnings (scan_log (w_fs_final_read w) p)))).
Qed.

Lemma nonempty_elements (X : gset string) : nonempty (elements X) = false <-> X = ∅.
Proof.
  split.
  - destruct (elements X) eqn:E; [|done]. intros _.
    apply elements_empty_inv in E. by apply leibniz_equiv in E.
  - intros ->. by rewrite elements_empty.
Qed.

(** When a run of the steps returns [True]. *)
Lemma steps_succeed (opening triggering : M bool) (waited : M (bool * bool))
    (reported : bool -> M bool) (run : M bool) (ready triggered : Prop)
    (clean : bool -> Prop) :
  run = match fst opening with
        | Ret true =>
            match fst triggering with
            | Ret true =>
                match fst waited with
                | Ret (true, build_success) =>
                    (fst (reported build_success),
                     EvFrontmost :: snd opening ++ snd triggering ++ snd waited
                       ++ snd (reported build_success))
                | Ret (false, _) =>
                    (Ret false, EvFrontmost :: snd opening ++ snd triggering ++ snd waited)
                | Raise e =>
                    (Raise e, EvFrontmost :: snd opening ++ snd triggering ++ snd waited)
                | OutOfFuel =>
                    (OutOfFuel, EvFrontmost :: snd opening ++ snd triggering ++ snd waited)
                end
            | r => (r, EvFrontmost :: snd opening ++ snd triggering)
            end
        | r => (r, EvFrontmost :: snd opening)
        end ->
  (fst opening = Ret true <-> ready) ->
  (fst triggering = Ret true <-> triggered) ->
  (forall success, fst (reported success) = Ret true <-> clean success) ->
  fst run = Ret true
  <-> ready /\ triggered
      /\ exists success, fst waited = Ret (true, success) /\ clean success.
Proof.
  intros -> Hready Htriggered Hclean.
  destruct (fst opening) as [[|]|e|]; cbn [fst];
    [|split; [done|]; intros (H%Hready & _); done..].
  destruct (fst triggering) as [[|]|e|]; cbn [fst];
    [|split; [done|]; intros (_ & H%Htriggered & _); done..].
  destruct (fst waited) as [[[|] success]|e|]; cbn [fst];
    [|split; [done|]; intros (_ & _ & success' & [=] & _)..].
  rewrite Hclean. split.
  - intros H. split; [by apply Hready|]. split; [by apply Htriggered|]. eauto.
  - by intros (_ & _ & success' & [= <-] & H).
Qed.

(** X5. [build] returns [True] exactly when Xcode was frontmost or the
    project was opened, the action is [build] or [run] and its
    keystroke was sent, the wait reported completion, and the log that
    is the newest afterwards has no error (or, if no log is found any
    more, the wait had found none in the log it parsed). *)
Theorem build_succeeds_iff (action : string) (fuel : nat) :
  fst (build self w action timeout fuel) = Ret true
  <-> (xcode_already_active w = true \/ w_open_ok w = true)
      /\ (action = "build" \/ action = "run")
      /\ w_keystroke_ok w = true
      /\ exists success,
           fst (wait_for_build_completion self w timeout fuel) = Ret (true, success)
           /\ match get_latest_build_log self (w_fs_final w) with
              | Some p => errors (scan_log (w_fs_final_read w) p) = ∅
              | None => success = true
              end.
Proof.
  rewrite (steps_succeed _ _ _ (report self w) _
             (xcode_already_active w || w_open_ok w = true)
             (String.eqb action "build" || String.eqb action "run" = true
              /\ w_keystroke_ok w = true)
             (fun success =>
                match get_latest_build_log self (w_fs_final w) with
                | Some p => errors (scan_log (w_fs_final_read w) p) = ∅
                | None => success = true
                end)
             (build_steps self w timeout action fuel)
             (proj2 (opening_cases w))
             (proj2 (triggering_cases w action))).
  - rewrite orb_true_iff, orb_true_iff, !String.eqb_eq. tauto.
  - intros success. rewrite report_result.
    destruct (get_latest_build_log self (w_fs_final w)) as [p|].
    + rewrite <- nonempty_elements. split; [intros [= H]|intros ->; done].
      by apply negb_true_iff.
    + split; [by intros [= ->] | by intros ->].
Qed.

End BuildResults.


(** ** What is raised *)

Section WaitRaises.
Variable self : t.
Variable w : World.
Variable timeout : Z.

(** The newest log that loop test [j] finds cannot be [stat]ed any
    more, and [e] is what [stat] raises. *)
Local Abbreviation vanished j e :=
  (in_time w timeout j = true
   /\ exists cur, get_latest_build_log self (w_fs_glob w j) = Some cur
                  /\ Fs.stat_mtime (Fs.root (w_fs_stat w j)) cur = None
                  /\ e = stat_exn (w_fs_stat w j) cur).

Lemma start_turn_raises initial_log j e :
  fst (start_turn self w timeout initial_log j) = Raise e -> vanished j e.
Proof.
  unfold start_turn. destruct (in_time w timeout j); [|done].
  rewrite bind_latest. cbn [fst].
  destruct (get_latest_build_log self (w_fs_glob w j)) as [cur|]; [|done].
  destruct initial_log as [ini|]; [|done].
  destruct (negb (path_eqb cur ini)); [done|]. unfold stat.
  destruct (Fs.stat_mtime (Fs.root (w_fs_stat w j)) cur) as [m|] eqn:Hm.
  - cbn [bind ret fst]. by destruct (m >? w_initial_time w)%Z.
  - intros [= <-]. eauto.
Qed.

Lemma poll_turn_raises s e :
  fst (poll_turn self w timeout s) = Raise e -> vanished (test s) e.
Proof.
  unfold poll_turn. destruct (in_time w timeout (test s)); [|done].
  rewrite bind_latest. cbn [fst].
  destruct (get_latest_build_log self (w_fs_glob w (test s))) as [cur|]; [|done].
  unfold stat.
  destruct (Fs.stat_mtime (Fs.root (w_fs_stat w (test s))) cur) as [m|] eqn:Hm.
  - cbn [bind ret fst]. destruct (m =? last_modified s)%Z; [|done].
    destruct (3 <=? stable_count s + 1); [|done].
    unfold parse_build_log. cbn [bind emit ret fst snd app].
    by rewrite getitem_errors.
  - intros [= <-]. eauto.
Qed.






End WaitRaises.

(** ** A log that keeps changing *)

Section ChangingLog.
Variable self : t.
Variable w : World.
Variable timeout : Z.

(** X15. A log that keeps changing makes the wait time out.  When the
    newest log can always be read and no two loop tests see the same
    modification time, [wait_for_build_completion] returns
    [(False, False)] once the timeout has elapsed, however early the
    build was seen to start. *)
Theorem changing_log_times_out (n fuel : nat) :
  in_time w timeout n = false -> n < fuel ->
  (forall j cur,
     get_latest_build_log self (w_fs_glob w j) = Some cur ->
     Fs.stat_mtime (Fs.root (w_fs_stat w j)) cur <> None) ->
  (forall m t1 t2,
     t1 < t2 -> sample self w timeout t1 = Some m -> sample self w timeout t2 = Some m ->
     False) ->
  fst (wait_for_build_completion self w timeout fuel) = Ret (false, false).
Proof.
  intros Hout Hfuel Hstat Hchange.
  unfold wait_for_build_completion. rewrite bind_latest. cbn [fst]. rewrite fst_bind.
  destruct (start_loop_ends self w timeout
              (get_latest_build_log self (w_fs_initial w)) n 0 fuel) as [Hends Hle];
    [done..|].
  destruct (fst (while fuel (start_turn self w timeout _) 0)) as [[j0|]|e|] eqn:Hstart;
    try done.
  - rewrite fst_bind. specialize (Hle j0 eq_refl).
    pose proof (poll_loop_ends self w timeout (n - j0) (first_poll j0) fuel) as Hp.
    cbn [test first_poll] in Hp. replace (j0 + (n - j0)) with n in Hp by lia.
    specialize (Hp Hout ltac:(lia)). unfold first_poll in Hp.
    destruct (fst (while fuel (poll_turn self w timeout) _)) as [[r|]|e|] eqn:Hloop;
      try done.
    + exfalso. apply while_leaves in Hloop as (k & s & _ & Hk & Hleave).
      pose proof (turns_invariant (poll_turn self w timeout)
                    (poll_invariant self w timeout j0)
                    (poll_invariant_step self w timeout j0)
                    k _ s (poll_invariant_first self w timeout j0) Hk)
        as (a & Ha & _ & _ & _ & H2).
      destruct (poll_turn_cases self w timeout s)
        as [[_ Hq] | [(_ & _ & Hq) | [(m & _ & _ & Hq) | [(_ & _ & Hq)
            | [(_ & Hge & _) | [_ [e Hq]]]]]]];
        try (rewrite Hq in Hleave; done).
      destruct (H2 ltac:(lia)) as (t1 & t2 & _ & Ht & H1 & H2').
      apply (Hchange (last_modified s) t1 t2); [lia | done..].
    + exfalso. apply while_raises in Hloop as (k & s & _ & Hr).
      apply poll_turn_raises in Hr as (_ & cur & Hcur & Hgone & _).
      by apply (Hstat _ _ Hcur).
  - exfalso. apply while_raises in Hstart as (k & s & _ & Hr).
    apply start_turn_raises in Hr as (_ & cur & Hcur & Hgone & _).
    by apply (Hstat _ _ Hcur).
Qed.

End ChangingLog.

(** ** What [parse_build_log] collects *)

(** What a line contributes, branch by branch. *)
Lemma process_line_cases (line : string) :
  (forall r, process_line line r = r)
  \/ (exists m rest,
        Re.search true Pat.file_error line = Some (m, rest)
        /\ forall r, process_line line r
                     = add_error (Re.group 1 m +:+ ":" +:+ Py.strip (Re.group 2 m)) r)
  \/ (exists m rest clean,
        Re.search true Pat.simple_error line = Some (m, rest)
        /\ clean = match Re.search false (Pat.error_msg (Re.group 1 m)) (Re.group 2 m) with
                   | Some (m', _) => Py.strip (Re.group 1 m')
                   | None =>
                       if negb (Py.contains quote_str
                                  (Re.sub false Pat.quoted (Py.strip (Re.group 2 m))))
                       then Py.strip (Re.group 2 m)
                       else Re.sub false Pat.quoted (Py.strip (Re.group 2 m))
                   end
        /\ forall r, process_line line r = add_error (Re.group 1 m +:+ ":" +:+ clean) r)
  \/ (exists ext m rest,
        (ext = Pat.swift_ext \/ ext = Pat.objc_ext)
        /\ Re.search false (Pat.diagnostic ext) line = Some (m, rest)
        /\ forall r, process_line line r
                     = add_error (diagnostic_entry (Re.group 1 m) (Re.group 2 m)
                                    (Re.group 3 m)
                                    (Py.take 200 (Py.strip (Re.group 4 m)))) r)
  \/ (exists m rest,
        Re.search true Pat.file_warning line = Some (m, rest)
        /\ forall r, process_line line r
                     = add_warning (Re.group 1 m +:+ ":" +:+ Py.strip (Re.group 2 m)) r)
  \/ (exists m rest,
        Re.search true Pat.note line = Some (m, rest)
        /\ forall r, process_line line r = add_note (Py.strip (Re.group 1 m)) r).
Proof.
  unfold process_line.
  destruct (has_tag "error:" line).
  { unfold tagged_error.
    destruct (Re.search true Pat.file_error line) as [[m rest]|] eqn:Hfile.
    { right; left. by exists m, rest. }
    destruct (Re.search true Pat.simple_error line) as [[m rest]|] eqn:Hsimple;
      [|by left].
    cbv zeta.
    match goal with
    | |- context [match ?c with EmptyString => _ | String _ _ => _ end] =>
        destruct c as [|a clean] eqn:Hclean
    end; [by left|].
    right; right; left. exists m, rest, (String a clean). by rewrite Hclean. }
  destruct (located Pat.swift_ext line).
  { destruct (any_phrase Pat.swift_phrases line); [|by left]. unfold heuristic_error.
    destruct (Re.search false (Pat.diagnostic Pat.swift_ext) line) as [[m rest]|] eqn:Hd;
      [|by left].
    do 3 right; left. exists Pat.swift_ext, m, rest. split; [by left|]. by split. }
  destruct (located Pat.objc_ext line).
  { destruct (any_phrase Pat.objc_phrases line); [|by left]. unfold heuristic_error.
    destruct (Re.search false (Pat.diagnostic Pat.objc_ext) line) as [[m rest]|] eqn:Hd;
      [|by left].
    do 3 right; left. exists Pat.objc_ext, m, rest. split; [by right|]. by split. }
  destruct (has_tag "warning:" line).
  { destruct (Re.search true Pat.file_warning line) as [[m rest]|] eqn:Hw; [|by left].
    do 4 right; left. by exists m, rest. }
  destruct (has_tag "note:" line); [|by left].
  destruct (Re.search true Pat.note line) as [[m rest]|] eqn:Hn; [|by left].
  do 5 right. by exists m, rest.
Qed.

(** ** Every entry is a single line *)

Lemma is_line_app a b : is_line (a +:+ b) = is_line a && is_line b.
Proof.
  induction a as [|c a IH]; [reflexivity|].
  change (is_line (String c (a +:+ b)) = is_line (String c a) && is_line b).
  simpl. rewrite IH. by rewrite andb_assoc.
Qed.

Lemma is_line_take n : forall s, is_line s = true -> is_line (Py.take n s) = true.
Proof.
  induction n as [|n IH]; intros [|c s]; simpl; try done.
  intros H. apply andb_prop in H as [-> H]. by rewrite IH.
Qed.

Lemma is_line_lstrip s : is_line s = true -> is_line (Py.lstrip s) = true.
Proof.
  induction s as [|c s IH]; [done|]. intros H. simpl.
  destruct (Py.is_space c); [|done].
  simpl in H. apply andb_prop in H as [_ H]. auto.
Qed.

Lemma is_line_rstrip s : is_line s = true -> is_line (Py.rstrip s) = true.
Proof.
  induction s as [|c s IH]; [done|]. intros H. simpl in *.
  apply andb_prop in H as [Hc H]. specialize (IH H).
  destruct (Py.rstrip s) as [|d t].
  - destruct (Py.is_space c); [done|]. simpl. by rewrite Hc.
  - simpl in *. by rewrite Hc.
Qed.

Lemma is_line_strip s : is_line s = true -> is_line (Py.strip s) = true.
Proof. intros H. by apply is_line_rstrip, is_line_lstrip. Qed.

Lemma line_caps_nil : line_caps [].
Proof. by intros n. Qed.

Lemma line_caps_cons n g cs :
  is_line g = true -> line_caps cs -> line_caps ((n, g) :: cs).
Proof. intros Hg Hcs i. simpl. by destruct (i =? n). Qed.

(** A match on a line leaves a line and captures lines. *)
Lemma matches_lines ic r s cs s' cs' :
  Re.matches ic r s cs s' cs' ->
  is_line s = true -> line_caps cs -> is_line s' = true /\ line_caps cs'.
Proof.
  induction 1; intros Hs Hcs; try done;
    try (simpl in Hs; apply andb_prop in Hs as [_ Hs]; done);
    try (destruct (IHmatches1 Hs Hcs) as [Hs1 Hcs1]; by apply IHmatches2);
    try by apply IHmatches.
  destruct (IHmatches Hs Hcs) as [Hs' Hcs']. split; [done|].
  apply line_caps_cons; [|done]. by apply is_line_take.
Qed.

Lemma search_lines ic r : forall s m rest,
  Re.search ic r s = Some (m, rest) -> is_line s = true -> line_caps m.
Proof.
  intros s m rest H Hs. apply ReFacts.search_sound in H as (skipped & from & -> & M).
  rewrite is_line_app in Hs. apply andb_prop in Hs as [_ Hs].
  by destruct (matches_lines _ _ _ _ _ _ M Hs line_caps_nil).
Qed.

Lemma sub_group1_lines ic r fuel : forall s,
  is_line s = true -> is_line (Re.sub_group1 fuel ic r s) = true.
Proof.
  induction fuel as [|fuel IH]; intros s Hs; [done|]. simpl.
  assert (Hskip : is_line match s with
                          | EmptyString => EmptyString
                          | String c s' => String c (Re.sub_group1 fuel ic r s')
                          end = true).
  { destruct s as [|c s']; [done|]. simpl in *.
    apply andb_prop in Hs as [-> Hs]. by apply IH. }
  destruct (Re.match_here ic r s) as [[cs rest]|] eqn:Hm; [|done].
  destruct (Py.len rest <? Py.len s); [|done].
  apply ReFacts.run_sound in Hm as (s' & cs' & M & [= <- <-]).
  destruct (matches_lines _ _ _ _ _ _ M Hs line_caps_nil) as [Hrest Hcs].
  rewrite is_line_app, Hcs. by apply IH.
Qed.

Lemma split_lines s : Forall (fun l => is_line l = true) (Py.split Py.newline s).
Proof.
  induction s as [|c s IH]; simpl; [by repeat constructor|].
  change (Ascii.eqb c "010") with (Ascii.eqb c Py.newline).
  destruct (Ascii.eqb c Py.newline) eqn:Hc; [by constructor|].
  destruct (Py.split Py.newline s) as [|f fs]; [by repeat constructor; simpl; rewrite Hc|].
  inversion IH; subst. constructor; [|done]. simpl. by rewrite Hc.
Qed.

Lemma field_add k k' msg e :
  e ∈ field k (add k' msg empty_result) -> k = k' /\ e = msg.
Proof. destruct k, k'; simpl; set_solver. Qed.

Lemma field_empty k e : e ∉ field k empty_result.
Proof. destruct k; simpl; set_solver. Qed.

Lemma process_line_lines line k e :
  is_line line = true -> e ∈ field k (process_line line empty_result) -> is_line e = true.
Proof.
  intros Hline.
  destruct (process_line_cases line)
    as [H | [(m & rest & Hm & H) | [(m & rest & clean & Hm & Hclean & H)
        | [(ext & m & rest & _ & Hm & H) | [(m & rest & Hm & H) | (m & rest & Hm & H)]]]]];
    rewrite H; clear H; [by intros ?%field_empty|..];
    pose proof (search_lines _ _ _ _ _ Hm Hline) as Hcaps.
  - intros [_ ->]%(field_add k KError).
    rewrite !is_line_app, Hcaps. simpl. by apply is_line_strip.
  - intros [_ ->]%(field_add k KError).
    rewrite !is_line_app, Hcaps. simpl. subst clean.
    destruct (Re.search false _ (Re.group 2 m)) as [[m' rest']|] eqn:Hm'.
    + apply is_line_strip. by apply (search_lines _ _ _ _ _ Hm').
    + destruct (negb _); [by apply is_line_strip|].
      by apply sub_group1_lines, is_line_strip.
  - intros [_ ->]%(field_add k KError). unfold diagnostic_entry.
    rewrite !is_line_app, !Hcaps. cbn -[Py.take Py.strip Re.group].
    by apply is_line_take, is_line_strip.
  - intros [_ ->]%(field_add k KWarning).
    rewrite !is_line_app, Hcaps. simpl. by apply is_line_strip.
  - intros [_ ->]%(field_add k KNote). by apply is_line_strip.
Qed.

(** X8. Every entry is a single line.  No error, warning or note that
    [parse_build_log] collects contains a newline. *)
Theorem entries_are_single_lines (fs : Fs.FS) (log_path : Fs.Path) (k : kind) (e : string) :
  e ∈ field k (scan_log fs log_path) -> is_line e = true.
Proof.
  unfold scan_log.
  destruct (Fs.read_gzip (Fs.root fs) log_path) as [content|];
    [|by intros ?%field_empty].
  intros [H | (line & Hin & H)]%field_process_lines; [by apply field_empty in H|].
  apply (process_line_lines line k); [|done].
  pose proof (split_lines content) as Hall. rewrite Forall_forall in Hall. auto.
Qed.

(** ** Every error and warning names a source file *)

Lemma lacks_app c a b : lacks c (a +:+ b) = lacks c a && lacks c b.
Proof.
  induction a as [|d a IH]; [reflexivity|].
  change (lacks c (String d (a +:+ b)) = lacks c (String d a) && lacks c b).
  simpl. rewrite IH. by rewrite andb_assoc.
Qed.

Lemma chr_eq_refl ic c : Re.chr_eq ic c c = true.
Proof. unfold Re.chr_eq. destruct ic; apply Ascii.eqb_refl. Qed.

Lemma chr_eq_lower_char ic p c :
  Re.chr_eq ic p c = true -> Py.lower_char p = Py.lower_char c.
Proof.
  unfold Re.chr_eq. destruct ic; intros H; apply Ascii.eqb_eq in H; congruence.
Qed.

(** What a pattern that avoids [c] consumes has no [c]. *)
Lemma avoids_lacks c ic r s cs s' cs' :
  Re.matches ic r s cs s' cs' -> avoids c r = true ->
  exists p, s = p +:+ s' /\ lacks c p = true.
Proof.
  induction 1; simpl; intros Ha;
    try (by exists "");
    try (apply andb_prop in Ha as [Ha1 Ha2]);
    try (destruct (IHmatches1 ltac:(done)) as (p1 & -> & Hp1);
         destruct (IHmatches2 ltac:(done)) as (p2 & -> & Hp2);
         exists (p1 +:+ p2); split;
         [by rewrite ReFacts.append_assoc | by rewrite lacks_app, Hp1, Hp2]);
    try by apply IHmatches.
  - exists (String c0 ""). split; [done|]. simpl. rewrite andb_true_r.
    destruct (Ascii.eqb_spec c0 c) as [->|]; [|done].
    apply chr_eq_lower_char in H. rewrite H, Ascii.eqb_refl in Ha. done.
  - exists (String c0 ""). split; [done|]. simpl. rewrite andb_true_r.
    apply Ascii.eqb_eq in Ha as ->. by rewrite H.
  - exists (String c0 ""). split; [done|]. simpl. rewrite andb_true_r.
    apply Ascii.eqb_eq in Ha as ->.
    destruct (Ascii.eqb_spec c0 c) as [->|]; [|done]. by rewrite chr_eq_refl in H.
  - exists (String c0 ""). split; [done|]. simpl. rewrite andb_true_r.
    destruct (Ascii.eqb_spec c0 c) as [->|]; [|done]. by rewrite H in Ha.
  - exists (String c0 ""). split; [done|]. simpl. rewrite andb_true_r.
    destruct (Ascii.eqb_spec c0 c) as [->|]; [|done]. by rewrite H in Ha.
Qed.

(** A match keeps the groups that its pattern does not bind. *)
Lemma matches_keeps_group n ic r s cs s' cs' :
  Re.matches ic r s cs s' cs' -> binds n r = false -> Re.group n cs' = Re.group n cs.
Proof.
  induction 1; simpl; intros Hb; try done;
    try (apply orb_false_elim in Hb as [Hb1 Hb2]);
    try (rewrite IHmatches2, IHmatches1; done);
    try by apply IHmatches.
  rewrite Hb1. by apply IHmatches.
Qed.












(** ** Logs are parsed line by line *)

Lemma split_app_newline a b :
  Py.split Py.newline (a +:+ String Py.newline b)
  = Py.split Py.newline a ++ Py.split Py.newline b.
Proof.
  induction a as [|c a IH]; [reflexivity|].
  change (Py.split Py.newline (String c (a +:+ String Py.newline b))
          = Py.split Py.newline (String c a) ++ Py.split Py.newline b).
  simpl. change (Ascii.eqb c "010") with (Ascii.eqb c Py.newline).
  rewrite IH. destruct (Ascii.eqb c Py.newline); [reflexivity|].
  destruct (Py.split Py.newline a) as [|f fs] eqn:Ha; [|reflexivity].
  by destruct a; simpl in Ha; repeat case_match.
Qed.

(** X10. The log is parsed line by line.  An entry is in a collection of
    the result exactly when one of the lines of the log, taken on its
    own, yields it: no line changes what another line contributes. *)
Theorem parse_build_log_line_by_line (fs : Fs.FS) (log_path : Fs.Path)
    (content : string) (k : kind) (msg : string) :
  Fs.read_gzip (Fs.root fs) log_path = Some content ->
  msg ∈ field k (scan_log fs log_path)
  <-> exists line,
        line ∈ Py.split Py.newline content
        /\ msg ∈ field k (process_line line empty_result).
Proof.
  intros Hread. unfold scan_log. rewrite Hread. rewrite field_process_lines.
  split; [|by right]. intros [H|H]; [|done]. by apply field_empty in H.
Qed.

(** X11. Appending a log to another adds its entries.  The log whose text
    is the text of one log, a newline and the text of a second log gives
    in each collection the union of what the two logs give. *)
Theorem parse_build_log_concat (fs1 fs2 fs : Fs.FS) (p1 p2 p : Fs.Path)
    (c1 c2 : string) (k : kind) :
  Fs.read_gzip (Fs.root fs1) p1 = Some c1 ->
  Fs.read_gzip (Fs.root fs2) p2 = Some c2 ->
  Fs.read_gzip (Fs.root fs) p = Some (c1 +:+ String Py.newline c2) ->
  field k (scan_log fs p) = field k (scan_log fs1 p1) ∪ field k (scan_log fs2 p2).
Proof.
  intros H1 H2 H. unfold scan_log. rewrite H1, H2, H, split_app_newline.
  apply set_eq. intros msg. rewrite elem_of_union, !field_process_lines.
  setoid_rewrite elem_of_app.
  pose proof (field_empty k msg) as Hempty.
  naive_solver.
Qed.

(** ** Where the logs are looked for *)


(** [*] stands for any text, the empty one included. *)
Lemma fnmatch_star pat : forall n,
  Fs.fnmatch (String "*" pat) n = true
  <-> exists base rest, n = base +:+ rest /\ Fs.fnmatch pat rest = true.
Proof.
  induction n as [|d n IH].
  - cbn [Fs.fnmatch Ascii.eqb Bool.eqb]. split.
    + destruct (Fs.fnmatch pat "") eqn:H; [|done]. intros _. by exists "", "".
    + intros ([|? ?] & rest & Hn & Hrest); [|done].
      change ("" = rest) in Hn. subst. by rewrite Hrest.
  - cbn [Fs.fnmatch Ascii.eqb Bool.eqb] in *.
    destruct (Fs.fnmatch pat (String d n)) eqn:H.
    + split; [|done]. intros _. by exists "", (String d n).
    + rewrite IH. split.
      * intros (base & rest & -> & Hrest). by exists (String d base), rest.
      * intros ([|c base] & rest & Hn & Hrest).
        -- change (String d n = rest) in Hn. subst. congruence.
        -- change (String d n = String c (base +:+ rest)) in Hn.
           injection Hn as _ ->. eauto.
Qed.

Lemma fnmatch_prefix : forall p n,
  plain p = true ->
  Fs.fnmatch (p +:+ "*") n = true <-> exists rest, n = p +:+ rest.
Proof.
  induction p as [|c p IH]; intros n Hp.
  - change ("" +:+ "*") with "*". rewrite fnmatch_star. split.
    + intros _. by exists n.
    + intros _. exists n, "". split; [|done].
      clear. induction n as [|d n IH]; [done|].
      change (String d n = String d (n +:+ "")). by rewrite <- IH.
  - simpl in Hp. apply andb_prop in Hp as [Hc Hp].
    apply andb_prop in Hc as [Hc _]. apply andb_prop in Hc as [Hstar Hany].
    apply negb_true_iff in Hstar, Hany.
    change (String c p +:+ "*") with (String c (p +:+ "*")).
    cbn [Fs.fnmatch]. rewrite Hstar. destruct n as [|d n].
    + split; [done|]. by intros [rest H].
    + rewrite Hany. cbn [orb]. rewrite andb_true_iff, (IH n Hp), Ascii.eqb_eq. split.
      * intros [-> [rest ->]]. by exists rest.
      * intros [rest H]. change (String d n = String c (p +:+ rest)) in H.
        injection H as -> ->. eauto.
Qed.


Lemma glob_elem root d pat p :
  p ∈ Fs.glob root d pat -> exists name, p = d ++ [name] /\ Fs.fnmatch pat name = true.
Proof.
  unfold Fs.glob.
  destruct (Fs.lookup root d) as [[|t es]|]; try (intros H; by apply not_elem_of_nil in H).
  intros Hin. apply list_elem_of_fmap in Hin as ([name x] & -> & Hin).
  apply list_elem_of_filter in Hin as [Hm _]. by exists name.
Qed.

Lemma find_entry_elem name x es :
  Fs.find_entry name es = Some x -> (name, x) ∈ es.
Proof.
  induction es as [|[n z] es IH]; [done|]. simpl.
  destruct (String.eqb_spec n name) as [->|Hne].
  - intros [= ->]. apply list_elem_of_here.
  - intros H. apply list_elem_of_further. auto.
Qed.

(** Whatever exists in a directory under a matching name is listed. *)
Lemma glob_lists root d pat name :
  Fs.exists_ root (d ++ [name]) = true -> Fs.fnmatch pat name = true ->
  d ++ [name] ∈ Fs.glob root d pat.
Proof.
  unfold Fs.exists_, Fs.glob. rewrite lookup_snoc.
  destruct (Fs.lookup root d) as [[|t es]|]; try done.
  destruct (Fs.find_entry name es) as [x|] eqn:Hx; [|done]. intros _ Hm.
  apply list_elem_of_fmap. exists (name, x). split; [done|].
  apply list_elem_of_filter. split; [done|]. by apply find_entry_elem.
Qed.

Lemma find_project_derived_data_elem self fs dd :
  find_project_derived_data self fs = Some dd ->
  dd ∈ Fs.glob (Fs.root fs) (derived_data_path self) (project_name self +:+ "-*")
  /\ forall q,
       q ∈ Fs.glob (Fs.root fs) (derived_data_path self) (project_name self +:+ "-*") ->
       (mtime_key fs q <= mtime_key fs dd)%Z.
Proof.
  unfold find_project_derived_data.
  destruct (Fs.glob _ _ _) as [|m ms]; [done|]. intros [= <-]. split.
  - apply max_by_in.
  - intros q Hq. by apply max_by_ge.
Qed.

Lemma plain_app a b : plain (a +:+ b) = plain a && plain b.
Proof.
  induction a as [|c a IH]; [reflexivity|].
  change (plain (String c (a +:+ b)) = plain (String c a) && plain b).
  simpl. rewrite IH. by rewrite !andb_assoc.
Qed.

Lemma derived_data_pattern name n :
  plain name = true ->
  Fs.fnmatch (name +:+ "-*") n = true <-> exists rest, n = name +:+ "-" +:+ rest.
Proof.
  intros Hp.
  replace (name +:+ "-*") with ((name +:+ "-") +:+ "*")
    by (by rewrite ReFacts.append_assoc).
  rewrite fnmatch_prefix by (by rewrite plain_app, Hp).
  by setoid_rewrite ReFacts.append_assoc.
Qed.

(** X12. Which DerivedData directory is used.  For a project name
    without pattern characters, [find_project_derived_data] returns a
    directory of DerivedData named [NAME-...], the one modified last
    among all the entries of DerivedData with such a name; it returns
    [None] exactly when DerivedData has no entry with such a name. *)
Theorem derived_data_is_newest_match (self : t) (fs : Fs.FS) :
  plain (project_name self) = true ->
  (forall dd,
     find_project_derived_data self fs = Some dd ->
     exists rest m,
       dd = derived_data_path self ++ [project_name self +:+ "-" +:+ rest]
       /\ Fs.stat_mtime (Fs.root fs) dd = Some m
       /\ forall rest' m',
            Fs.stat_mtime (Fs.root fs)
              (derived_data_path self ++ [project_name self +:+ "-" +:+ rest'])
            = Some m' ->
            (m' <= m)%Z)
  /\ (find_project_derived_data self fs = None
      <-> forall rest,
            Fs.exists_ (Fs.root fs)
              (derived_data_path self ++ [project_name self +:+ "-" +:+ rest]) = false).
Proof.
  intros Hp. split.
  - intros dd Hdd. apply find_project_derived_data_elem in Hdd as [Hin Hmax].
    destruct (glob_elem _ _ _ _ Hin) as (n & -> & Hn).
    apply derived_data_pattern in Hn as [rest ->]; [|done].
    exists rest, (mtime_key fs (derived_data_path self ++ [project_name self +:+ "-" +:+ rest])).
    split; [done|]. split; [by eapply mtime_key_stat|].
    intros rest' m' Hm'.
    assert (Hq : derived_data_path self ++ [project_name self +:+ "-" +:+ rest']
                 ∈ Fs.glob (Fs.root fs) (derived_data_path self)
                     (project_name self +:+ "-*")).
    { apply glob_lists.
      - unfold Fs.exists_. unfold Fs.stat_mtime in Hm'.
        by destruct (Fs.lookup _ _).
      - apply derived_data_pattern; [done|]. by exists rest'. }
    specialize (Hmax _ Hq). unfold mtime_key at 1 in Hmax. by rewrite Hm' in Hmax.
  - unfold find_project_derived_data. split.
    + destruct (Fs.glob _ _ _) as [|m ms] eqn:Hglob; [|done]. intros _ rest.
      destruct (Fs.exists_ _ _) eqn:Hex; [|done].
      apply (glob_lists _ _ (project_name self +:+ "-*")) in Hex.
      * rewrite Hglob in Hex. by apply not_elem_of_nil in Hex.
      * apply derived_data_pattern; [done|]. by exists rest.
    + intros Hnone. destruct (Fs.glob _ _ _) as [|m ms] eqn:Hglob; [done|].
      assert (Hin : m ∈ Fs.glob (Fs.root fs) (derived_data_path self)
                        (project_name self +:+ "-*"))
        by (rewrite Hglob; apply list_elem_of_here).
      destruct (glob_elem _ _ _ _ Hin) as (n & -> & Hn).
      apply derived_data_pattern in Hn as [rest ->]; [|done].
      destruct (glob_stat _ _ _ _ Hin) as [t Ht].
      specialize (Hnone rest). unfold Fs.exists_ in Hnone. unfold Fs.stat_mtime in Ht.
      by destruct (Fs.lookup _ _).
Qed.





(** ** The quote clean-up of the simple error format *)

Section QuoteCleanup.
Import Re.

Local Abbreviation final := (fun (rest : string) (cs : caps) => Some (cs, rest)).

(** A greedy [.*] at the end of a pattern takes the rest of the line. *)
Lemma star_dot_to_the_end fuel : forall s cs,
  is_line s = true -> Py.len s <= fuel ->
  star_loop (run false Dot) final fuel s cs = Some (cs, "").
Proof.
  induction fuel as [|fuel IH]; intros [|c s] cs Hs Hf; simpl in *; try done; try lia.
  apply andb_prop in Hs as [Hc Hs]. apply negb_true_iff in Hc.
  change (Ascii.eqb c "010") with (Ascii.eqb c Py.newline). rewrite Hc. cbn [negb].
  unfold Py.len in *.
  replace (String.length s <? Datatypes.S (String.length s)) with true
    by (symmetry; apply Nat.ltb_lt; lia).
  rewrite IH; [done | done | lia].
Qed.

Lemma star_loop_dot k fuel c s cs :
  Ascii.eqb c Py.newline = false ->
  star_loop (run false Dot) k (Datatypes.S fuel) (String c s) cs
  = match star_loop (run false Dot) k fuel s cs with
    | Some m => Some m
    | None => k (String c s) cs
    end.
Proof.
  intros Hc. cbn [star_loop run step1]. rewrite Hc. cbn [negb].
  unfold Py.len. cbn [String.length].
  replace (String.length s <? Datatypes.S (String.length s)) with true
    by (symmetry; apply Nat.ltb_lt; lia).
  reflexivity.
Qed.

(** If the pattern with a leading [.*] finds nothing at the head of a
    line, it finds nothing further on either. *)
Lemma quoted_not_later c s :
  is_line (String c s) = true ->
  match_here false Pat.quoted (String c s) = None ->
  match_here false Pat.quoted s = None.
Proof.
  intros Hs. simpl in Hs. apply andb_prop in Hs as [Hc _]. apply negb_true_iff in Hc.
  unfold match_here.
  pose (k := fun (s' : string) (cs' : caps) =>
               run false (seq [Chr Py.dquote; Group 1 (Plus (NotChr Py.dquote));
                               Chr Py.dquote; Star Dot]) s' cs' final).
  assert (Hrun : forall t, run false Pat.quoted t [] final
                           = star_loop (run false Dot) k (Datatypes.S (Py.len t)) t [])
    by reflexivity.
  rewrite !Hrun. change (Py.len (String c s)) with (Datatypes.S (Py.len s)).
  rewrite star_loop_dot by done.
  by destruct (star_loop (run false Dot) k (Datatypes.S (Py.len s)) s []).
Qed.

Lemma run_seq_sound ic r1 r2 s cs k res :
  run ic (Seq r1 r2) s cs k = Some res ->
  exists s1 cs1, matches ic r1 s cs s1 cs1 /\ run ic r2 s1 cs1 k = Some res.
Proof. intros H. cbn [run] in H. by apply ReFacts.run_sound in H. Qed.

Lemma match_quoted s cs rest :
  is_line s = true ->
  match_here false Pat.quoted s = Some (cs, rest) ->
  rest = "" /\ lacks Py.dquote (group 1 cs) = true.
Proof.
  intros Hs H. unfold match_here, Pat.quoted in H. cbn [seq] in H.
  apply run_seq_sound in H as (s1 & cs1 & M1 & H).
  apply run_seq_sound in H as (s2 & cs2 & M2 & H).
  apply run_seq_sound in H as (s3 & cs3 & M3 & H).
  apply run_seq_sound in H as (s4 & cs4 & M4 & H).
  destruct (matches_lines _ _ _ _ _ _ M1 Hs line_caps_nil) as [Hs1 Hc1].
  destruct (matches_lines _ _ _ _ _ _ M2 Hs1 Hc1) as [Hs2 Hc2].
  destruct (matches_lines _ _ _ _ _ _ M3 Hs2 Hc2) as [Hs3 Hc3].
  destruct (matches_lines _ _ _ _ _ _ M4 Hs3 Hc3) as [Hs4 Hc4].
  change (run false (Seq (Star Dot) Eps) s4 cs4 final)
    with (star_loop (run false Dot) final (Datatypes.S (Py.len s4)) s4 cs4) in H.
  rewrite star_dot_to_the_end in H by (done || lia). injection H as <- <-.
  split; [done|].
  rewrite (matches_keeps_group 1 _ _ _ _ _ _ M4 eq_refl).
  inversion M3 as [| | | | | | | | | | | | | |? ? ? ? ? ? Hin]; subst.
  destruct (avoids_lacks Py.dquote _ _ _ _ _ _ Hin eq_refl) as (p & -> & Hp).
  cbn [group Nat.eqb]. by rewrite ReFacts.consumed_app.
Qed.

Lemma sub_no_match fuel : forall s,
  is_line s = true -> match_here false Pat.quoted s = None ->
  sub_group1 fuel false Pat.quoted s = s.
Proof.
  induction fuel as [|fuel IH]; intros s Hs Hm; [done|].
  cbn [sub_group1]. rewrite Hm. destruct s as [|c s]; [done|].
  rewrite IH; [done| |by eapply quoted_not_later].
  simpl in Hs. by apply andb_prop in Hs as [_ Hs].
Qed.

Lemma lacks_contains c : forall s,
  lacks c s = true -> Py.contains (String c "") s = false.
Proof.
  induction s as [|d s IH]; [done|]. simpl. intros H.
  apply andb_prop in H as [Hd H]. apply negb_true_iff in Hd.
  rewrite (IH H). destruct (ascii_dec c d) as [->|]; [|done].
  by rewrite Ascii.eqb_refl in Hd.
Qed.

Lemma append_empty s : s +:+ "" = s.
Proof.
  induction s as [|c s IH]; [done|].
  change (String c (s +:+ "") = String c s). by rewrite IH.
Qed.

(** On a line the substitution either changes nothing or leaves no
    quote. *)
Lemma sub_quoted s :
  is_line s = true ->
  sub false Pat.quoted s = s
  \/ Py.contains quote_str (sub false Pat.quoted s) = false.
Proof.
  intros Hs. unfold sub.
  destruct (match_here false Pat.quoted s) as [[cs rest]|] eqn:Hm;
    [|left; by apply sub_no_match].
  right. cbn [sub_group1]. rewrite Hm.
  apply match_quoted in Hm as [-> Hg]; [|done].
  destruct s as [|c s]; [done|].
  change (Py.len "" <? Py.len (String c s)) with true. cbn iota.
  replace (sub_group1 (Py.len (String c s)) false Pat.quoted "") with "".
  - rewrite append_empty. by apply lacks_contains.
  - by destruct (Py.len (String c s)).
Qed.

End QuoteCleanup.

(** X14. The quote clean-up never changes a message.  When the simple
    error format applies and the message does not repeat the file path,
    the message that is kept is [message_part.strip()]: the substitution
    that follows either changes nothing or leaves no quote, and in the
    second case the code goes back to [message_part.strip()]. *)
Theorem quote_cleanup_has_no_effect (line : string) (result : Result) :
  is_line line = true ->
  tagged_error line result =
  match Re.search true Pat.file_error line with
  | Some (m, _) =>
      add_error (Re.group 1 m +:+ colon +:+ Py.strip (Re.group 2 m)) result
  | None =>
      match Re.search true Pat.simple_error line with
      | Some (m, _) =>
          let file_path := Re.group 1 m in
          let message_part := Re.group 2 m in
          let clean_message :=
            match Re.search false (Pat.error_msg file_path) message_part with
            | Some (m', _) => Py.strip (Re.group 1 m')
            | None => Py.strip message_part
            end in
          match clean_message with
          | EmptyString => result
          | _ => add_error (file_path +:+ colon +:+ clean_message) result
          end
      | None => result
      end
  end.
Proof.
  intros Hline. unfold tagged_error.
  destruct (Re.search true Pat.file_error line) as [[m rest]|]; [done|].
  destruct (Re.search true Pat.simple_error line) as [[m rest]|] eqn:Hm; [|done].
  cbv zeta.
  destruct (Re.search false (Pat.error_msg (Re.group 1 m)) (Re.group 2 m))
    as [[m' rest']|]; [done|].
  assert (Hs : is_line (Py.strip (Re.group 2 m)) = true).
  { apply is_line_strip. by apply (search_lines _ _ _ _ _ Hm). }
  destruct (sub_quoted _ Hs) as [-> | ->]; [|done].
  by destruct (negb _).
Qed.

(** * The model at work *)

Example latest_of_two_logs :
  get_latest_build_log Demo.self (Demo.machine Demo.two_logs)
  = Some (Demo.build_dir ++ ["new.xcactivitylog"]).
Proof. vm_compute. reflexivity. Qed.

Example init_demo :
  init (Demo.machine []) "App.xcodeproj" = Ret Demo.self.
Proof. vm_compute. reflexivity. Qed.

(** A table of lines and what each contributes. *)
Example tagged_error_line :
  process_line "/a/b.swift:3:5: error: bad thing  " empty_result
  = add_error "/a/b.swift:bad thing" empty_result.
Proof. vm_compute. reflexivity. Qed.

Example simple_error_line :
  process_line "/a/b.h: error: plain" empty_result
  = add_error "/a/b.h:error: plain" empty_result.
Proof. vm_compute. reflexivity. Qed.

Example unlocated_error_line :
  process_line "ld: error: linker failed" empty_result = empty_result.
Proof. vm_compute. reflexivity. Qed.

Example swift_heuristic_line :
  process_line "/a/b.swift:3:5 warning: getter for x" empty_result
  = add_error "/a/b.swift:3:5 warning: getter for x" empty_result.
Proof. vm_compute. reflexivity. Qed.

Example swift_location_without_phrase :
  process_line "/a/b.swift:3:5 warning: plain" empty_result = empty_result.
Proof. vm_compute. reflexivity. Qed.

Example objc_heuristic_line :
  process_line "/Users/x/File.m:12:7   property 'foo' not found" empty_result
  = add_error "/Users/x/File.m:12:7 property 'foo' not found" empty_result.
Proof. vm_compute. reflexivity. Qed.

Example located_warning_line :
  process_line "/a/b.swift:3:5: warning: unused variable" empty_result
  = add_warning "/a/b.swift:unused variable" empty_result.
Proof. vm_compute. reflexivity. Qed.

Example note_line :
  process_line "some NOTE:   see declaration  " empty_result
  = add_note "see declaration" empty_result.
Proof. vm_compute. reflexivity. Qed.

Example plain_line :
  process_line "CompileSwift normal arm64" empty_result = empty_result.
Proof. vm_compute. reflexivity. Qed.

(** Four equal readings end the wait: one that is recorded and three
    that are unchanged. *)
Example wait_on_a_stable_log :
  wait_for_build_completion Demo.self (Demo.world [] Demo.two_logs) 300 10
  = (Ret (true, true),
     [EvLatestLog; EvLatestLog; EvLatestLog; EvSleep 1; EvLatestLog; EvSleep 1;
      EvLatestLog; EvSleep 1; EvLatestLog;
      EvParse (Demo.build_dir ++ ["new.xcactivitylog"])]).
Proof. vm_compute. reflexivity. Qed.

(** ** More of the model at work *)

(** A build that Xcode runs while it is frontmost: the log appears,
    settles, and has a warning but no error. *)
Example build_with_a_warning :
  build Demo.self (Demo.building Demo.two_logs) "build" 300 10
  = (Ret true,
     [EvFrontmost; EvKeystroke "b"; EvLatestLog; EvLatestLog; EvLatestLog; EvSleep 1;
      EvLatestLog; EvSleep 1; EvLatestLog; EvSleep 1; EvLatestLog;
      EvParse (Demo.build_dir ++ ["new.xcactivitylog"]); EvLatestLog;
      EvParse (Demo.build_dir ++ ["new.xcactivitylog"])]).
Proof. vm_compute. reflexivity. Qed.

Example main_exits_with_0 :
  fst (Cli.main {| Cli.h_parse_args :=
                     Cli.Namespace {| Cli.project_path := "App.xcodeproj";
                                      Cli.action := "build";
                                      Cli.target := None; Cli.timeout := 300 |};
                   Cli.h_accessibility := Cli.Ended Exited;
                   Cli.h_fs := Demo.machine [];
                   Cli.h_world := Demo.building Demo.two_logs |} 10)
  = Ret 0.
Proof. vm_compute. reflexivity. Qed.

Example main_without_permission :
  Cli.main {| Cli.h_parse_args :=
                Cli.Namespace {| Cli.project_path := "App.xcodeproj";
                                 Cli.action := "build";
                                 Cli.target := None; Cli.timeout := 300 |};
              Cli.h_accessibility := Cli.TimeoutExpired;
              Cli.h_fs := Demo.machine [];
              Cli.h_world := Demo.building Demo.two_logs |} 10
  = (Ret 1, []).
Proof. vm_compute. reflexivity. Qed.

(** Without [osascript] the accessibility test itself raises, outside
    the [try] of [main]. *)
Example main_without_osascript :
  Cli.main {| Cli.h_parse_args :=
                Cli.Namespace {| Cli.project_path := "App.xcodeproj";
                                 Cli.action := "build";
                                 Cli.target := None; Cli.timeout := 300 |};
              Cli.h_accessibility := Cli.Ended (Failed FileNotFoundError);
              Cli.h_fs := Demo.machine [];
              Cli.h_world := Demo.without_osascript |} 10
  = (Raise FileNotFoundError, []).
Proof. vm_compute. reflexivity. Qed.

Example main_on_a_usage_error :
  Cli.main {| Cli.h_parse_args := Cli.UsageError;
              Cli.h_accessibility := Cli.Ended Exited;
              Cli.h_fs := Demo.machine [];
              Cli.h_world := Demo.building Demo.two_logs |} 10
  = (Ret 2, []).
Proof. vm_compute. reflexivity. Qed.

(** Without [osascript] the frontmost query fails, which is taken for
    Xcode not being frontmost, and the open script raises. *)
Example build_without_osascript :
  build Demo.self Demo.without_osascript "build" 300 10
  = (Raise FileNotFoundError, [EvFrontmost; EvOpen]).
Proof. vm_compute. reflexivity. Qed.

(** Xcode is not frontmost and the open script fails: nothing else is
    done. *)
Example build_when_opening_fails :
  build Demo.self (Demo.world [] Demo.two_logs) "build" 300 10
  = (Ret false, [EvFrontmost; EvOpen]).
Proof. vm_compute. reflexivity. Qed.

(** [Logs] has become a file when the log is [stat]ed. *)
Example wait_on_a_blocked_log :
  fst (wait_for_build_completion Demo.self Demo.blocked 300 10)
  = Raise NotADirectoryError.
Proof. vm_compute. reflexivity. Qed.

(** The log is listed and then gone: the wait raises, and [main] exits
    with 1. *)
Example wait_on_a_vanishing_log :
  fst (wait_for_build_completion Demo.self Demo.vanishing 300 10)
  = Raise FileNotFoundError.
Proof. vm_compute. reflexivity. Qed.

Example main_on_a_vanishing_log :
  fst (Cli.main {| Cli.h_parse_args :=
                     Cli.Namespace {| Cli.project_path := "App.xcodeproj";
                                      Cli.action := "run";
                                      Cli.target := None; Cli.timeout := 300 |};
                   Cli.h_accessibility := Cli.Ended Exited;
                   Cli.h_fs := Demo.machine [];
                   Cli.h_world := Demo.vanishing |} 10)
  = Ret 1.
Proof. vm_compute. reflexivity. Qed.

Example quoted_error :
  process_line Demo.quoted_error_line empty_result
  = add_error ("/a/b.h:error: use "
               +:+ String Py.dquote ("x" +:+ String Py.dquote " here")) empty_result.
Proof. vm_compute. reflexivity. Qed.

(** A note that is nothing but white space is collected as the empty
    string. *)
Example blank_note :
  process_line "note:   " empty_result = add_note "" empty_result.
Proof. vm_compute. reflexivity. Qed.

(** * The theorems at concrete inputs *)

(** C10 at the demo machine: the project exists, construction succeeds
    and names the project [App]. *)
Lemma init_witness :
  exists self,
    init (Demo.machine []) "App.xcodeproj" = Ret self
    /\ project_name self = "App".
Proof.
  destruct (init_raises_iff_missing (Demo.machine []) "App.xcodeproj") as [_ H].
  destruct (H eq_refl) as (self & Hinit & _ & Hname).
  exists self. split; [exact Hinit|]. rewrite Hname. reflexivity.
Defined.


(** C8 at a log that is not gzip data. *)
Lemma parse_build_log_witness :
  exists d : gmap string (list string),
    parse_build_log (Demo.machine Demo.broken) (Demo.build_dir ++ ["a.xcactivitylog"])
    = (Ret d, [EvParse (Demo.build_dir ++ ["a.xcactivitylog"])])
    /\ d !! "errors" = Some [] /\ d !! "warnings" = Some [] /\ d !! "notes" = Some [].
Proof.
  destruct (parse_build_log_total (Demo.machine Demo.broken)
              (Demo.build_dir ++ ["a.xcactivitylog"])) as (d & Hd & _ & Hempty).
  exists d. split; [exact Hd|]. apply Hempty. vm_compute. reflexivity.
Defined.

(** C2 at a located warning: only the warnings can change. *)
Lemma process_line_witness :
  errors (process_line Demo.warning_line empty_result) = errors empty_result
  /\ notes (process_line Demo.warning_line empty_result) = notes empty_result.
Proof.
  destruct (process_line_precedence Demo.warning_line empty_result)
    as (_ & _ & _ & H & _).
  apply H; vm_compute; reflexivity.
Defined.

(** C9 at a Swift diagnostic without the tag [error:]. *)
Lemma heuristic_error_witness :
  Py.len Demo.swift_line < 1000
  /\ heuristic Demo.swift_line = true
  /\ exists ext m rest message,
       (ext = Pat.swift_ext \/ ext = Pat.objc_ext)
       /\ Re.search false (Pat.diagnostic ext) Demo.swift_line = Some (m, rest)
       /\ (exists p, Re.group 1 m = String "/" p)
       /\ is_number (Re.group 2 m) = true
       /\ is_number (Re.group 3 m) = true
       /\ message = Py.take 200 (Py.strip (Re.group 4 m))
       /\ Py.len message <= 200
       /\ "/p/q.swift:7:8 conflicts with previous"
          = diagnostic_entry (Re.group 1 m) (Re.group 2 m) (Re.group 3 m) message.
Proof.
  apply (heuristic_error_bounded Demo.swift_line empty_result).
  - vm_compute. reflexivity.
  - replace (process_line Demo.swift_line empty_result)
      with (add_error "/p/q.swift:7:8 conflicts with previous" empty_result)
      by (vm_compute; reflexivity).
    simpl. apply elem_of_union_l, elem_of_singleton. reflexivity.
  - apply not_elem_of_empty.
Defined.

(** C5, as stated, fails: a line with the tag [warning:] that matches no
    error pattern and has no source location adds nothing. *)
Lemma bare_warning_is_dropped :
  has_tag "warning:" Demo.bare_warning_line = true
  /\ has_tag "error:" Demo.bare_warning_line = false
  /\ located Pat.swift_ext Demo.bare_warning_line = false
  /\ located Pat.objc_ext Demo.bare_warning_line = false
  /\ heuristic Demo.bare_warning_line = false
  /\ (forall r, process_line Demo.bare_warning_line r = r)
  /\ ~ exists msg, msg ∈ warnings (process_line Demo.bare_warning_line empty_result).
Proof.
  repeat split; try (vm_compute; reflexivity).
  intros [msg Hmsg].
  replace (process_line Demo.bare_warning_line empty_result) with empty_result in Hmsg
    by (vm_compute; reflexivity).
  by apply not_elem_of_empty in Hmsg.
Qed.

(** C5, as amended, at a located warning: the entry is [path:message]. *)
Lemma warning_line_witness :
  process_line Demo.warning_line empty_result
  = add_warning "/a/b.swift:unused variable" empty_result.
Proof.
  rewrite (warning_line_classified Demo.warning_line empty_result)
    by (vm_compute; reflexivity).
  vm_compute. reflexivity.
Defined.

(** C3 at a log with the same warning twice and a log with it once. *)
Lemma parse_build_log_dedup_witness :
  elements (warnings (scan_log (Demo.machine Demo.twice)
                        (Demo.build_dir ++ ["a.xcactivitylog"])))
  ≡ₚ elements (warnings (scan_log (Demo.machine Demo.once)
                           (Demo.build_dir ++ ["a.xcactivitylog"]))).
Proof.
  destruct parse_build_log_dedup as (_ & _ & H).
  apply (H (Demo.machine Demo.twice) (Demo.build_dir ++ ["a.xcactivitylog"])
           (Demo.machine Demo.once) (Demo.build_dir ++ ["a.xcactivitylog"])
           [] [] [] Demo.warning_line
           (to_dict (scan_log (Demo.machine Demo.twice)
                       (Demo.build_dir ++ ["a.xcactivitylog"])))
           (to_dict (scan_log (Demo.machine Demo.once)
                       (Demo.build_dir ++ ["a.xcactivitylog"])))
           "warnings"); try reflexivity.
  repeat constructor.
Defined.

(** C4 at a machine without any log and a timeout of three seconds. *)
Lemma wait_reports_no_completion_witness :
  fst (wait_for_build_completion Demo.self (Demo.world [] []) 3 4) = Ret (false, false).
Proof.
  apply (wait_reports_no_completion Demo.self (Demo.world [] []) 3 3).
  - intros j Hj. destruct j as [|[|[|j]]]; [| | |lia];
      (split; [vm_compute; reflexivity | exact I]).
  - vm_compute. reflexivity.
  - lia.
Defined.

(** C1 at a log that appears and then stays as it is: the first loop
    leaves at test 0, the second records the modification time at test
    1, and the samples of tests 2, 3 and 4 are unchanged. *)
Lemma wait_completes_when_stable_witness :
  exists success,
    fst (wait_for_build_completion Demo.self (Demo.world [] Demo.two_logs) 300 5)
    = Ret (true, success).
Proof.
  destruct (wait_completes_when_stable Demo.self (Demo.world [] Demo.two_logs) 300
              1 1 1 {| last_modified := 20; stable_count := 0; test := 2 |})
    as (success & s' & _ & _ & _ & H).
  - vm_compute. reflexivity.
  - vm_compute. reflexivity.
  - intros i Hi. destruct i as [|[|[|i]]]; [| | |lia]; vm_compute; reflexivity.
  - exists success. apply H. lia.
Defined.

(** C7 at a machine on which the project is opened, the keystroke is
    sent, the log appears and settles, and is parsed: every step is
    performed, in order. *)
Lemma build_steps_witness :
  snd (build Demo.self (Demo.opening Demo.two_logs) "build" 300 10)
  = EvFrontmost :: [EvOpen; EvSleep 2] ++ [EvKeystroke "b"]
      ++ snd (wait_for_build_completion Demo.self (Demo.opening Demo.two_logs) 300 10)
      ++ [EvLatestLog; EvParse (Demo.build_dir ++ ["new.xcactivitylog"])].
Proof.
  destruct (build_steps_in_order Demo.self (Demo.opening Demo.two_logs) 300 "build" 10)
    as (_ & _ & _ & _ & _ & _ & H & _).
  apply (H eq_refl eq_refl true). vm_compute. reflexivity.
Defined.

(** ** The further theorems at concrete inputs *)

(** X1 at a machine without any log and a timeout of three seconds:
    the run is over at loop test 3. *)
Lemma wait_ends_by_timeout_witness :
  exists last,
    last <= 3
    /\ ends_at Demo.self (Demo.world [] []) 3 last
         (fst (wait_for_build_completion Demo.self (Demo.world [] []) 3 4)).
Proof.
  apply (wait_ends_by_timeout Demo.self (Demo.world [] []) 3 3 4).
  - vm_compute. reflexivity.
  - lia.
Defined.

(** X3 at a log that appears and then stays as it is: the second loop
    starts at test 1, records the modification time there, and returns
    at test 4. *)
Lemma completion_needs_stable_log_witness :
  exists j0 s t1 t2,
    poll_reaches Demo.self (Demo.world [] Demo.two_logs) 300 j0 s
    /\ j0 <= t1 /\ t1 < t2 < test s
    /\ sample Demo.self (Demo.world [] Demo.two_logs) 300 t1 = Some (last_modified s)
    /\ sample Demo.self (Demo.world [] Demo.two_logs) 300 t2 = Some (last_modified s)
    /\ sample Demo.self (Demo.world [] Demo.two_logs) 300 (test s)
       = Some (last_modified s).
Proof.
  destruct (completion_needs_stable_log Demo.self (Demo.world [] Demo.two_logs) 300 10 true)
    as (j0 & s & t1 & t2 & Hreach & _ & Hj0 & Hlt & H1 & H2 & H3 & _).
  - vm_compute. reflexivity.
  - exists j0, s, t1, t2. do 2 (split; [assumption|]). split; [exact Hlt|].
    do 2 (split; [assumption|]). assumption.
Defined.

(** X4 at the same world: the wait reports completion and success, and
    the log it parsed last has no error. *)
Lemma wait_result_shape_witness :
  exists j0 s cur before,
    poll_reaches Demo.self (Demo.world [] Demo.two_logs) 300 j0 s
    /\ get_latest_build_log Demo.self (w_fs_glob (Demo.world [] Demo.two_logs) (test s))
       = Some cur
    /\ errors (scan_log (w_fs_read (Demo.world [] Demo.two_logs) (test s)) cur) = ∅
    /\ snd (wait_for_build_completion Demo.self (Demo.world [] Demo.two_logs) 300 10)
       = before ++ [EvParse cur].
Proof.
  destruct (wait_result_shape Demo.self (Demo.world [] Demo.two_logs) 300 10 true true)
    as [[[=] _] | (_ & j0 & s & cur & before & Hreach & _ & Hcur & Hsucc & Htrace & _)].
  - vm_compute. reflexivity.
  - exists j0, s, cur, before. do 2 (split; [assumption|]).
    split; [by apply Hsucc | assumption].
Defined.

(** X8 at the warning of the demo log. *)
Lemma entries_are_single_lines_witness :
  is_line "/a/b.swift:unused variable" = true.
Proof.
  apply (entries_are_single_lines (Demo.machine Demo.once)
           (Demo.build_dir ++ ["a.xcactivitylog"]) KWarning).
  replace (scan_log (Demo.machine Demo.once) (Demo.build_dir ++ ["a.xcactivitylog"]))
    with (add_warning "/a/b.swift:unused variable" empty_result)
    by (vm_compute; reflexivity).
  simpl. apply elem_of_union_l, elem_of_singleton. reflexivity.
Defined.


(** X10 at the demo log with one line. *)
Lemma parse_build_log_line_by_line_witness :
  "/a/b.swift:unused variable"
    ∈ warnings (scan_log (Demo.machine Demo.once) (Demo.build_dir ++ ["a.xcactivitylog"]))
  <-> exists line,
        line ∈ Py.split Py.newline Demo.warning_line
        /\ "/a/b.swift:unused variable" ∈ warnings (process_line line empty_result).
Proof.
  apply (parse_build_log_line_by_line (Demo.machine Demo.once)
           (Demo.build_dir ++ ["a.xcactivitylog"]) Demo.warning_line KWarning).
  vm_compute. reflexivity.
Defined.

(** X11 at the demo logs: the log with the warning twice is the log
    with the warning once, appended to itself. *)
Lemma parse_build_log_concat_witness :
  warnings (scan_log (Demo.machine Demo.twice) (Demo.build_dir ++ ["a.xcactivitylog"]))
  = warnings (scan_log (Demo.machine Demo.once) (Demo.build_dir ++ ["a.xcactivitylog"]))
    ∪ warnings (scan_log (Demo.machine Demo.once) (Demo.build_dir ++ ["a.xcactivitylog"])).
Proof.
  apply (parse_build_log_concat (Demo.machine Demo.once) (Demo.machine Demo.once)
           (Demo.machine Demo.twice) _ _ _ Demo.warning_line Demo.warning_line KWarning);
    vm_compute; reflexivity.
Defined.

(** X12 at the demo machine: [App-abc] is used, not [Other-xyz]. *)
Lemma derived_data_is_newest_match_witness :
  exists rest m,
    XcodeRemote.derived_data_path Demo.self ++ ["App-abc"]
    = XcodeRemote.derived_data_path Demo.self
      ++ [XcodeRemote.project_name Demo.self +:+ "-" +:+ rest]
    /\ Fs.stat_mtime (Fs.root (Demo.machine Demo.two_logs))
         (XcodeRemote.derived_data_path Demo.self ++ ["App-abc"]) = Some m.
Proof.
  destruct (derived_data_is_newest_match Demo.self (Demo.machine Demo.two_logs) eq_refl)
    as [H _].
  destruct (H (XcodeRemote.derived_data_path Demo.self ++ ["App-abc"]))
    as (rest & m & Hdd & Hm & _).
  - vm_compute. reflexivity.
  - by exists rest, m.
Defined.


(** X14 at an error whose message quotes a name: the quotes stay. *)
Lemma quote_cleanup_witness :
  tagged_error Demo.quoted_error_line empty_result
  = add_error ("/a/b.h:error: use "
               +:+ String Py.dquote ("x" +:+ String Py.dquote " here")) empty_result.
Proof.
  rewrite (quote_cleanup_has_no_effect Demo.quoted_error_line empty_result)
    by (vm_compute; reflexivity).
  vm_compute. reflexivity.
Defined.

(** X15 at a log that is written to at every loop test, with a timeout
    of three seconds. *)
Lemma changing_log_times_out_witness :
  fst (wait_for_build_completion Demo.self Demo.busy 3 4) = Ret (false, false).
Proof.
  apply (changing_log_times_out Demo.self Demo.busy 3 3 4).
  - vm_compute. reflexivity.
  - lia.
  - intros j cur [= <-]. done.
  - assert (Hsample : forall t m, sample Demo.self Demo.busy 3 t = Some m -> m = Z.of_nat t).
    { intros t m. unfold sample. destruct (in_time Demo.busy 3 t); [|done].
      by intros [= <-]. }
    intros m t1 t2 Hlt H1%Hsample H2%Hsample. lia.
Defined.
